(** * merge-from-chromium.py: a shallow embedding and its properties

    The tool under study is [tools/merge-from-chromium.py].  Python values
    that the script handles dynamically are modelled by [pyval]; Python
    dictionaries are stdpp [gmap]s keyed by strings; subprocesses, the
    interactive prompt, the file system and the modules imported from the
    merged tree are the fields of a [Runtime] class; the script's
    functions live in a state-and-exception monad whose state is the
    outside world together with the trace of the observable events the
    script produced. *)

From stdpp Require Import gmap strings list fin_maps.
From Stdlib Require Import String Ascii ZArith Lia.

Open Scope string_scope.
Open Scope Z_scope.

(** ** Characters and strings

    Python 2 [str] is a byte string; so is Rocq's [string]. *)

Definition LF : ascii := Ascii.ascii_of_nat 10.
Definition nl : string := String LF "".
Definition at_sign : ascii := "@"%char.

(** [s.startswith(p)] *)
Definition startswith (p s : string) : bool := String.prefix p s.

(** The text after the first [n] bytes, [s[n:]]. *)
Fixpoint drop_str (n : nat) (s : string) : string :=
  match n, s with
  | O, _ => s
  | S n', String _ t => drop_str n' t
  | S _, EmptyString => EmptyString
  end.

(** [s.partition(c)] restricted to its success case: the text before the
    first [c] and the text after it; [None] when [c] does not occur. *)
Fixpoint partition_at (c : ascii) (s : string) : option (string * string) :=
  match s with
  | EmptyString => None
  | String a t =>
      if Ascii.eqb a c then Some (EmptyString, t)
      else match partition_at c t with
           | Some (u, r) => Some (String a u, r)
           | None => None
           end
  end.

(** The longest prefix that the regular expression [.*] can cover: the
    text up to, and without, the first line feed. *)
Fixpoint until_lf (s : string) : string :=
  match s with
  | EmptyString => EmptyString
  | String a t => if Ascii.eqb a LF then EmptyString else String a (until_lf t)
  end.

(** [s.split('\n')]: the lines of [s], which are the places where [^]
    matches under [re.MULTILINE], each extending to where [$] matches. *)
Fixpoint lines_from (cur : string) (s : string) : list string :=
  match s with
  | EmptyString => [cur]
  | String a t =>
      if Ascii.eqb a LF then cur :: lines_from EmptyString t
      else lines_from (cur ++ String a EmptyString) t
  end.

Definition splitlines (s : string) : list string := lines_from EmptyString s.

(** ['sep'.join(l)] *)
Fixpoint join (sep : string) (l : list string) : string :=
  match l with
  | [] => EmptyString
  | [x] => x
  | x :: rest => x ++ sep ++ join sep rest
  end.

(** [c in s] for a single byte [c]. *)
Fixpoint contains_char (c : ascii) (s : string) : bool :=
  match s with
  | EmptyString => false
  | String a t => (Ascii.eqb a c || contains_char c t)%bool
  end.

(** Python's [str.isspace] for one byte: space, and 9 to 13. *)
Definition is_space (a : ascii) : bool :=
  let n := nat_of_ascii a in
  (Nat.eqb n 32 || (Nat.leb 9 n && Nat.leb n 13))%bool.

Definition is_digit (a : ascii) : bool :=
  let n := nat_of_ascii a in (Nat.leb 48 n && Nat.leb n 57)%bool.

Fixpoint skip_spaces (s : string) : string :=
  match s with
  | String a t => if is_space a then skip_spaces t else s
  | EmptyString => EmptyString
  end.

Fixpoint take_while (p : ascii -> bool) (s : string) : string :=
  match s with
  | String a t => if p a then String a (take_while p t) else EmptyString
  | EmptyString => EmptyString
  end.

(** [s.split()[0]]: the first whitespace-separated word, and no word
    ([IndexError] in Python) when [s] is empty or blank. *)
Definition first_word (s : string) : option string :=
  match skip_spaces s with
  | EmptyString => None
  | w => Some (take_while (fun a => negb (is_space a)) w)
  end.

(** [os.path.join(a, b)] of [posixpath], for two components. *)
Definition path_join (a b : string) : string :=
  if startswith "/" b then b
  else if (String.eqb a "" || startswith "/" (drop_str (Nat.pred (String.length a)) a))%bool
       then a ++ b
       else a ++ "/" ++ b.

(** ** The regular expressions of the script

    Each pattern of the script is translated to the function that
    computes what [re] returns for that pattern. *)

(** [re.match] with the pattern of [_GetThirdPartyProjectMergeInfo], a
    lazy group of any characters, an [@], and a greedy group of any
    characters: the match is anchored at the start of [s]; the lazy
    first group stops at the first [@]; neither group crosses a line
    feed.  The result is [(group(1), group(2))], or [None]
    when the first line holds no [@]. *)
Definition re_match_url_sha1 (s : string) : option (string * string) :=
  partition_at at_sign (until_lf s).

(** One line against [^(DD|DU) ([^\n]+)$]: the second group. *)
Definition deleted_by_us_line (l : string) : option string :=
  if (startswith "DD " l || startswith "DU " l)%bool
  then match drop_str 3 l with
       | EmptyString => None
       | f => Some f
       end
  else None.

(** [[x[1] for x in re.findall(r'^(DD|DU) ([^\n]+)$', status,
    flags=re.MULTILINE)]] *)
Definition findall_deleted_by_us (status : string) : list string :=
  omap deleted_by_us_line (splitlines status).

Definition conflict_codes : list string :=
  ["DD"; "AU"; "UD"; "UA"; "DU"; "AA"; "UU"].

(** One line against [^((DD|AU|UD|UA|DU|AA|UU) [^\n]+)$]: the first
    group, which is the whole line. *)
Definition conflict_line (l : string) : option string :=
  if existsb (fun c => startswith (c ++ " ") l) conflict_codes
  then match drop_str 3 l with
       | EmptyString => None
       | _ => Some l
       end
  else None.

(** [[x[0] for x in re.findall(r'^((DD|AU|UD|UA|DU|AA|UU) [^\n]+)$',
    status, flags=re.MULTILINE)]] *)
Definition findall_conflicts (status : string) : list string :=
  omap conflict_line (splitlines status).

Definition staged_line (l : string) : bool :=
  match l with
  | String a _ => existsb (Ascii.eqb a) (list_ascii_of_string "MADRC")
  | EmptyString => false
  end.

(** [re.search(r'^[MADRC]', status, flags=re.MULTILINE) != None] *)
Definition search_staged (status : string) : bool :=
  existsb staged_line (splitlines status).

(** The candidates for [@([0-9]+)] in the rest of a line, the rightmost
    one last: greedy [.*] makes [re] pick the last. *)
Fixpoint svn_id_candidates (s : string) : list string :=
  match s with
  | EmptyString => []
  | String a t =>
      (if Ascii.eqb a at_sign
       then match take_while is_digit t with
            | EmptyString => []
            | d => [d]
            end
       else []) ++ svn_id_candidates t
  end.

(** One line against [^git-svn-id: .*@([0-9]+)]: group 1. *)
Definition svn_id_line (l : string) : option string :=
  if startswith "git-svn-id: " l
  then last (svn_id_candidates (drop_str 12 l))
  else None.

(** [re.search(r'^git-svn-id: .*@([0-9]+)', commit, flags=re.MULTILINE)],
    as its [group(1)]: the first line that matches decides. *)
Definition search_svn_id (commit : string) : option string :=
  head (omap svn_id_line (splitlines commit)).

(** ** Python values, exceptions and results *)

#[warnings="-register-all"] Inductive pyval : Type :=
| PNone
| PStr (s : string)
| PFrom (module_name : string)   (* an instance of [FromImpl] *)
| PDict (d : gmap string pyval).

(** Python's truth value of an object. *)
Definition truthy (v : pyval) : bool :=
  match v with
  | PNone => false
  | PStr s => negb (String.eqb s "")
  | PFrom _ => true
  | PDict d => negb (Nat.eqb (size d) 0)
  end.

Inductive exn : Type :=
| KeyError (key : string)
| TypeError
| AttributeError
| IndexError
| RuntimeError (msg : string)
| Exception (msg : string)
| SystemExit (code : Z)
| OtherError (name : string).   (* raised by a collaborator: OSError, ImportError, ... *)

Inductive result (A : Type) : Type :=
| Ok (a : A)
| Raise (e : exn)
| OutOfFuel.
Arguments Ok {A} a.
Arguments Raise {A} e.
Arguments OutOfFuel {A}.

#[global] Instance result_ret : MRet result := fun _ a => Ok a.
#[global] Instance result_bind : MBind result := fun _ _ k r =>
  match r with
  | Ok a => k a
  | Raise e => Raise e
  | OutOfFuel => OutOfFuel
  end.

(** [d[key]] on a dictionary. *)
Definition getitem (d : gmap string pyval) (key : string) : result pyval :=
  match d !! key with
  | Some v => Ok v
  | None => Raise (KeyError key)
  end.

(** [v[key]] on an arbitrary object with a string key. *)
Definition subscript (v : pyval) (key : string) : result pyval :=
  match v with
  | PDict d => getitem d key
  | _ => Raise TypeError
  end.

(** [v.get(key)]: [None] stands for a missing key. *)
Definition py_get (v : pyval) (key : string) : result pyval :=
  match v with
  | PDict d => Ok (default PNone (d !! key))
  | _ => Raise AttributeError
  end.

(** ** [_ParseDEPS]: the [Var] syntax *)

Module VarImpl.

Record t : Type := mk
  { _custom_vars : gmap string pyval;
    _local_scope : gmap string pyval }.

(** [self._local_scope.get('vars', {})] *)
Definition local_vars (self : t) : pyval :=
  default (PDict ∅) (_local_scope self !! "vars").

(** [var_name in v] for the objects that can stand there. *)
Definition contains (v : pyval) (var_name : string) : result bool :=
  match v with
  | PDict d => Ok (bool_decide (is_Some (d !! var_name)))
  | PStr s => Ok (match String.index 0 var_name s with
                  | Some _ => true
                  | None => false
                  end)
  | PNone | PFrom _ => Raise TypeError
  end.

Definition Lookup (self : t) (var_name : string) : result pyval :=
  if bool_decide (is_Some (_custom_vars self !! var_name))
  then getitem (_custom_vars self) var_name
  else
    b ← contains (local_vars self) var_name;
    if (b : bool)
    then vars ← getitem (_local_scope self) "vars"; subscript vars var_name
    else Raise (Exception ("Var is not defined: " ++ var_name)).

End VarImpl.

(** ** The outside world

    Everything the script does not compute itself: subprocesses, the
    operator at the terminal, the file system, Python's [exec] and [repr],
    [optparse], and the two modules imported from the merged tree. *)

Record project_info : Type := ProjectInfo { url : string; sha1 : string }.

Record options : Type := Options
  { git_url : string; git_branch : string; svn_revision : option string }.

Class Runtime (World : Type) : Type :=
  { (** [os.path.abspath] of the checkout the script works in *)
    REPOSITORY_ROOT : string;
    (** [subprocess.Popen(args, cwd)] followed by [communicate()]:
        return code, stdout, stderr *)
    popen : list string -> string -> World -> result (Z * string * string) * World;
    raw_input : string -> World -> result string * World;
    (** [open(path, 'w')] and [f.write(contents)] *)
    write_file : string -> string -> World -> result unit * World;
    (** [exec(content) in tmp_globals, tmp_locals]: the evaluator is given
        [Var], which reads the local scope as it stands when called, and
        returns the final local scope *)
    exec_deps : string -> (gmap string pyval -> string -> result pyval) ->
                result (gmap string pyval);
    (** [import webview_licenses] and [import known_incompatible], giving
        [KNOWN_INCOMPATIBLE.iteritems()] *)
    import_license_modules : World -> result (list (string * list string)) * World;
    GetIncompatibleDirectories : World -> result (list string) * World;
    GenerateNoticeFile : World -> result string * World;
    (** [parser.parse_args()] on [sys.argv[1:]], given the defaults *)
    parse_args : options -> list string -> result (options * list string);
    (** [str] of a list of strings *)
    repr_list : list string -> string;
    (** the order in which Python iterates over the keys of a dictionary *)
    dict_keys : gmap string project_info -> list string }.

Inductive event : Type :=
| ECmd (args : list string) (cwd : string) (outcome : result (Z * string * string))
| EStdout (line : string)
| EStderr (line : string)
| EPrompt (prompt : string) (answer : result string)
| EWriteFile (path contents : string)
| EPrintHelp.

Definition is_commit (e : event) : bool :=
  match e with
  | ECmd ("git" :: "commit" :: _) _ _ => true
  | _ => false
  end.

Definition is_prompt (e : event) : bool :=
  match e with
  | EPrompt _ _ => true
  | _ => false
  end.

(** The exit status of the interpreter for [sys.exit(main())]: the value
    [main] returns, the code of a [SystemExit], 1 after the traceback of
    any other exception. *)
Definition exit_code (r : result Z) : option Z :=
  match r with
  | Ok n => Some n
  | Raise (SystemExit n) => Some n
  | Raise _ => Some 1
  | OutOfFuel => None
  end.

Definition AUTOGEN_MESSAGE : string :=
  "This commit was generated by merge-from-chromium.py.".

Definition THIRD_PARTY_PROJECTS : list string :=
  [ "googleurl";
    "sdch/open-vcdiff";
    "testing/gmock";
    "testing/gtest";
    "third_party/WebKit";
    "third_party/angle";
    "third_party/cacheinvalidation/files/src/google";
    "third_party/freetype";
    "third_party/hunspell";
    "third_party/hunspell_dictionaries";
    "third_party/icu";
    "third_party/leveldatabase/src";
    "third_party/libjingle/source";
    "third_party/libphonenumber/src/phonenumbers";
    "third_party/libphonenumber/src/resources";
    "third_party/libphonenumber/src/test";
    "third_party/openssl";
    "third_party/ots";
    "third_party/pyftpdlib/src";
    "third_party/skia/include";
    "third_party/skia/gyp";
    "third_party/skia/src";
    "third_party/smhasher/src";
    "tools/grit";
    "tools/gyp";
    "v8" ].

Definition ALL_PROJECTS : list string := "." :: THIRD_PARTY_PROJECTS.

(** ** The script *)

Section Script.

Context {World : Type} `{RT : Runtime World}.

(** The interpreter's state: the world, what the script has done to it
    so far, and the module global [webview_licenses], [None] until
    [_MergeProjects] imports the module. *)
Record state : Type := State
  { world : World;
    trace : list event;
    webview_licenses : bool }.

Definition M (A : Type) : Type := state -> result A * state.

#[global] Instance M_ret : MRet M := fun _ a st => (Ok a, st).
#[global] Instance M_bind : MBind M := fun _ _ k m st =>
  match m st with
  | (Ok a, st') => k a st'
  | (Raise e, st') => (Raise e, st')
  | (OutOfFuel, st') => (OutOfFuel, st')
  end.

Definition raise {A} (e : exn) : M A := fun st => (Raise e, st).
Definition out_of_fuel {A} : M A := fun st => (OutOfFuel, st).
Definition lift {A} (r : result A) : M A := fun st => (r, st).

Definition emit (e : event) : M unit := fun st =>
  (Ok tt, State (world st) (trace st ++ [e]) (webview_licenses st)).

(** An operation of the world that cannot raise in a way the script
    sees differently from its result. *)
Definition ask {A} (f : World -> result A * World)
    (log : result A -> option event) : M A := fun st =>
  let '(r, w) := f (world st) in
  (r, State w (trace st ++ option_list (log r)) (webview_licenses st)).

Definition print (line : string) : M unit := emit (EStdout line).
Definition print_stderr (line : string) : M unit := emit (EStderr line).

Definition _GetCommandStdout (args : list string) (cwd : string)
    (ignore_errors : bool) : M string :=
  '(returncode, stdout, stderr) ← ask (popen args cwd) (fun r => Some (ECmd args cwd r));
  if ((returncode =? 0) || ignore_errors)%bool
  then mret stdout
  else
    print_stderr ("Running command " ++ repr_list args ++ " failed:");;
    print_stderr stderr;;
    raise (Exception "Command execution failed").

Definition _ReadGitFile (git_url git_branch sha1 path : string) : M string :=
  _GetCommandStdout ["git"; "fetch"; "-f"; git_url; git_branch ++ ":cached_upstream"]
                    REPOSITORY_ROOT false;;
  _GetCommandStdout ["git"; "show"; sha1 ++ ":" ++ path] REPOSITORY_ROOT false.

Definition _ParseDEPS (git_url git_branch sha1 : string) : M (gmap string pyval) :=
  let var := fun tmp_locals => VarImpl.Lookup (VarImpl.mk ∅ tmp_locals) in
  deps_content ← _ReadGitFile git_url git_branch sha1 ".DEPS.git";
  lift (exec_deps deps_content var).

(** The list literal [deps_fallback_order], evaluated left to right. *)
Definition deps_fallback_order (deps_vars : gmap string pyval) : result (list pyval) :=
  deps ← getitem deps_vars "deps";
  deps_os ← getitem deps_vars "deps_os";
  unix ← subscript deps_os "unix";
  deps_os' ← getitem deps_vars "deps_os";
  android ← subscript deps_os' "android";
  mret [deps; unix; android].

(** The inner [for ... else]: [Some] is the value at [break], [None]
    is the [else] branch. *)
Fixpoint find_entry (order : list pyval) (key : string) : result (option pyval) :=
  match order with
  | [] => mret None
  | deps :: rest =>
      url_plus_sha1 ← py_get deps key;
      if truthy url_plus_sha1 then mret (Some url_plus_sha1)
      else find_entry rest key
  end.

Definition missing_entry_message (path : string) : string :=
  "Could not find .DEPS.git entry for project " ++ path ++
  ". This probably means that the project list in snapshot.py needs to be updated.".

(** [re.match(...)] on the entry, then [group(1)] and [group(2)]. *)
Definition split_entry (url_plus_sha1 : pyval) : result project_info :=
  match url_plus_sha1 with
  | PStr s =>
      match re_match_url_sha1 s with
      | Some (url, sha1) => Ok (ProjectInfo url sha1)
      | None => Raise AttributeError
      end
  | _ => Raise TypeError
  end.

(** One turn of the outer loop, up to the [print]. *)
Definition project_merge_info (order : list pyval) (path : string) : result project_info :=
  found ← find_entry order (path_join "src" path);
  match found with
  | None => Raise (RuntimeError (missing_entry_message path))
  | Some url_plus_sha1 => split_entry url_plus_sha1
  end.

Fixpoint merge_info_loop (order : list pyval) (third_party_projects : list string)
    (result : gmap string project_info) : M (gmap string project_info) :=
  match third_party_projects with
  | [] => mret result
  | path :: rest =>
      info ← lift (project_merge_info order path);
      print ("  Got URL " ++ url info ++ " and SHA1 " ++ sha1 info ++
             " for project " ++ path);;
      merge_info_loop order rest (<[path := info]> result)
  end.

Definition _GetThirdPartyProjectMergeInfo (third_party_projects : list string)
    (deps_vars : gmap string pyval) : M (gmap string project_info) :=
  order ← lift (deps_fallback_order deps_vars);
  merge_info_loop order third_party_projects ∅.

Definition conflict_prompt (conflicts_string commit_message : string) : string :=
  "The following conflicts exist and must be resolved." ++ nl ++ nl ++
  conflicts_string ++ nl ++ nl ++
  "When done, enter a commit message or press enter to use the default ('" ++
  commit_message ++ "')." ++ nl ++ nl.

(** The [while True] loop; it yields the commit message in force at the
    [break].  One unit of fuel pays for one turn. *)
Fixpoint resolve_conflicts (fuel : nat) (commit_message cwd : string) : M string :=
  match fuel with
  | O => out_of_fuel
  | S fuel' =>
      status ← _GetCommandStdout ["git"; "status"; "--porcelain"] cwd false;
      let conflicts := findall_conflicts status in
      match conflicts with
      | [] => mret commit_message
      | _ =>
          let conflicts_string := join nl conflicts in
          new_commit_message ←
            ask (raw_input (conflict_prompt conflicts_string commit_message))
                (fun r => Some (EPrompt (conflict_prompt conflicts_string commit_message) r));
          resolve_conflicts fuel'
            (if truthy (PStr new_commit_message) then new_commit_message
             else commit_message) cwd
      end
  end.

Definition _CheckNoConflictsAndCommitMerge (fuel : nat) (commit_message cwd : string)
    : M unit :=
  status ← _GetCommandStdout ["git"; "status"; "--porcelain"] cwd false;
  let conflicts_deleted_by_us := findall_deleted_by_us status in
  (match conflicts_deleted_by_us with
   | [] => mret tt
   | _ =>
       print ("Keeping ours for the following locally deleted files." ++ nl ++ "  " ++
              join (nl ++ "  ") conflicts_deleted_by_us);;
       _GetCommandStdout (["git"; "rm"; "-rf"; "--ignore-unmatch"] ++
                          conflicts_deleted_by_us) cwd false;;
       mret tt
   end);;
  commit_message' ← resolve_conflicts fuel commit_message cwd;
  _GetCommandStdout ["git"; "commit"; "-m"; commit_message'] cwd false;;
  mret tt.

Definition _ModifiedFilesInIndex (cwd : string) : M bool :=
  status ← _GetCommandStdout ["git"; "status"; "--porcelain"] cwd false;
  mret (search_staged status).

(** The loop [for path in merge_info] of [_MergeProjects]. *)
Fixpoint merge_third_party (fuel : nat) (merge_info : gmap string project_info)
    (paths : list string) : M unit :=
  match paths with
  | [] => mret tt
  | path :: rest =>
      info ← lift (match merge_info !! path with
                   | Some i => Ok i
                   | None => Raise (KeyError path)
                   end);
      let url := url info in
      let sha1 := sha1 info in
      let dest_dir := path_join REPOSITORY_ROOT path in
      _GetCommandStdout ["git"; "checkout"; "-b"; "merge-from-chromium";
                         "-t"; "goog/master-chromium"] dest_dir false;;
      print ("Fetching project " ++ path ++ " at " ++ sha1 ++ " ...");;
      _GetCommandStdout ["git"; "fetch"; url] dest_dir false;;
      new_commits ← _GetCommandStdout ["git"; "rev-list"; "-1"; "HEAD.." ++ sha1]
                                       dest_dir false;
      (if truthy (PStr new_commits)
       then
         print ("Merging project " ++ path ++ " at " ++ sha1 ++ " ...");;
         _GetCommandStdout ["git"; "merge"; "--no-commit"; sha1] dest_dir true;;
         _CheckNoConflictsAndCommitMerge fuel
           ("Merge " ++ path ++ " from " ++ url ++ " at " ++ sha1 ++ nl ++ nl ++
            AUTOGEN_MESSAGE) dest_dir
       else
         print ("No new commits to merge in project " ++ path));;
      merge_third_party fuel merge_info rest
  end.

(** The loop over [known_incompatible.KNOWN_INCOMPATIBLE.iteritems()]. *)
Fixpoint exclude_incompatible (items : list (string * list string)) : M unit :=
  match items with
  | [] => mret tt
  | (path, exclude_list) :: rest =>
      print ("  " ++ join (nl ++ "  ") (map (path_join path) exclude_list));;
      let dest_dir := path_join REPOSITORY_ROOT path in
      _GetCommandStdout (["git"; "rm"; "-rf"; "--ignore-unmatch"] ++ exclude_list)
                        dest_dir false;;
      modified ← _ModifiedFilesInIndex dest_dir;
      (if (modified : bool)
       then _GetCommandStdout ["git"; "commit"; "-m"; "Exclude incompatible directories"]
                              dest_dir false;;
            mret tt
       else mret tt);;
      exclude_incompatible rest
  end.

(** [import webview_licenses], which binds the module global. *)
Definition import_modules : M (list (string * list string)) := fun st =>
  let '(r, w) := import_license_modules (world st) in
  (r, State w (trace st) (match r with Ok _ => true | _ => webview_licenses st end)).

(** [_MergeProjects] up to and including the exclusion loop. *)
Definition merge_and_exclude (fuel : nat) (git_url git_branch svn_revision root_sha1 : string)
    : M unit :=
  print "Parsing DEPS ...";;
  deps_vars ← _ParseDEPS git_url git_branch root_sha1;
  merge_info ← _GetThirdPartyProjectMergeInfo THIRD_PARTY_PROJECTS deps_vars;
  merge_third_party fuel merge_info (dict_keys merge_info);;
  _GetCommandStdout ["git"; "checkout"; "-b"; "merge-from-chromium";
                     "-t"; "goog/master-chromium"] REPOSITORY_ROOT false;;
  print ("Fetching Chromium at " ++ root_sha1 ++ " ...");;
  _GetCommandStdout ["git"; "fetch"; git_url; git_branch] REPOSITORY_ROOT false;;
  print ("Merging Chromium at " ++ root_sha1 ++ " ...");;
  _GetCommandStdout ["git"; "merge"; "--no-commit"; root_sha1] REPOSITORY_ROOT true;;
  _CheckNoConflictsAndCommitMerge fuel
    ("Merge Chromium from " ++ git_url ++ " branch " ++ git_branch ++ " at r" ++
     svn_revision ++ " (" ++ root_sha1 ++ ")" ++ nl ++ nl ++ AUTOGEN_MESSAGE)
    REPOSITORY_ROOT;;
  print "Getting directories to exclude ...";;
  known_incompatible ← import_modules;
  exclude_incompatible known_incompatible.

(** The end of [_MergeProjects]: the license scan. *)
Definition check_directories_left_over : M bool :=
  directories_left_over ← ask GetIncompatibleDirectories (fun _ => None);
  match directories_left_over with
  | [] => mret true
  | _ => raise (RuntimeError ("Incompatibly licensed directories remain: " ++
                              join nl directories_left_over))
  end.

Definition _MergeProjects (fuel : nat) (git_url git_branch svn_revision root_sha1 : string)
    : M bool :=
  merge_and_exclude fuel git_url git_branch svn_revision root_sha1;;
  check_directories_left_over.

Definition makefile_patterns : list string :=
  ["GypAndroid.mk"; "*.target.mk"; "*.host.mk"; "*.tmp"].

(** The first loop of [_GenerateMakefiles]. *)
Fixpoint remove_makefiles (paths : list string) : M unit :=
  match paths with
  | [] => mret tt
  | path :: rest =>
      let dest_dir := path_join REPOSITORY_ROOT path in
      _GetCommandStdout (["git"; "rm"; "--ignore-unmatch"] ++ makefile_patterns)
                        dest_dir false;;
      remove_makefiles rest
  end.

(** The second loop of [_GenerateMakefiles]. *)
Fixpoint add_makefiles (svn_revision : string) (paths : list string) : M unit :=
  match paths with
  | [] => mret tt
  | path :: rest =>
      let dest_dir := path_join REPOSITORY_ROOT path in
      _GetCommandStdout ["git"; "add"; "-f"; "GypAndroid.mk"] dest_dir true;;
      _GetCommandStdout ["git"; "add"; "-f"; "*.target.mk"] dest_dir true;;
      _GetCommandStdout ["git"; "add"; "-f"; "*.host.mk"] dest_dir true;;
      _GetCommandStdout ["git"; "add"; "-f"; "*.tmp"] dest_dir true;;
      modified ← _ModifiedFilesInIndex dest_dir;
      (if (modified : bool)
       then _GetCommandStdout
              ["git"; "commit"; "-m";
               "Update makefiles after merge of Chromium at r" ++ svn_revision ++
               nl ++ nl ++ AUTOGEN_MESSAGE] dest_dir false;;
            mret tt
       else mret tt);;
      add_makefiles svn_revision rest
  end.

Definition android_gyp_command : string :=
  "export CHROME_ANDROID_BUILD_WEBVIEW=1 && " ++
  "export CHROME_SRC=`pwd` && " ++
  "export PYTHONDONTWRITEBYTECODE=1 && " ++
  ". build/android/envsetup.sh && " ++
  "android_gyp".

Definition _GenerateMakefiles (svn_revision : string) : M unit :=
  print "Regenerating makefiles ...";;
  remove_makefiles ALL_PROJECTS;;
  _GetCommandStdout ["bash"; "-c"; android_gyp_command] REPOSITORY_ROOT false;;
  add_makefiles svn_revision ALL_PROJECTS.

Definition _GenerateNoticeFile (svn_revision : string) : M unit :=
  print "Regenerating NOTICE file ...";;
  contents ← (fun st => if webview_licenses st
                        then ask GenerateNoticeFile (fun _ => None) st
                        else raise AttributeError st);
  ask (write_file (path_join REPOSITORY_ROOT "NOTICE") contents)
      (fun _ => Some (EWriteFile (path_join REPOSITORY_ROOT "NOTICE") contents));;
  _GetCommandStdout ["git"; "add"; "NOTICE"] REPOSITORY_ROOT false;;
  modified ← _ModifiedFilesInIndex REPOSITORY_ROOT;
  if (modified : bool)
  then _GetCommandStdout
         ["git"; "commit"; "-m";
          "Update NOTICE file after merge of Chromium at r" ++ svn_revision ++
          nl ++ nl ++ AUTOGEN_MESSAGE] REPOSITORY_ROOT false;;
       mret tt
  else mret tt.

(** [stdout.split()[0]] *)
Definition first_word_or_raise (s : string) : M string :=
  match first_word s with
  | Some w => mret w
  | None => raise IndexError
  end.

Definition is_true_revision (svn_revision : option string) : bool :=
  match svn_revision with
  | Some r => truthy (PStr r)
  | None => false
  end.

Definition _GetSVNRevisionAndSHA1 (git_url git_branch : string)
    (svn_revision : option string) : M (string * string) :=
  print "Getting SVN revision and SHA1 ...";;
  _GetCommandStdout ["git"; "fetch"; "-f"; git_url; git_branch ++ ":cached_upstream"]
                    REPOSITORY_ROOT false;;
  if is_true_revision svn_revision
  then
    let svn_revision := default "" svn_revision in
    out ← _GetCommandStdout ["git"; "log"; "--grep=git-svn-id: .*@" ++ svn_revision;
                             "--format=%H"; "cached_upstream"] REPOSITORY_ROOT false;
    sha1 ← first_word_or_raise out;
    mret (svn_revision, sha1)
  else
    commit ← _GetCommandStdout ["git"; "log"; "-n1"; "--grep=git-svn-id:";
                                "--format=%H%n%b"; "cached_upstream"] REPOSITORY_ROOT false;
    sha1 ← first_word_or_raise commit;
    match search_svn_id commit with
    | Some svn_revision => mret (svn_revision, sha1)
    | None => raise AttributeError
    end.

(** [_Snapshot] has no [return] with a value: whichever way it ends
    without an exception, it returns [None]. *)
Definition _Snapshot (fuel : nat) (git_url git_branch : string)
    (svn_revision : option string) : M pyval :=
  '(svn_revision, root_sha1) ← _GetSVNRevisionAndSHA1 git_url git_branch svn_revision;
  new_commits ← _GetCommandStdout ["git"; "rev-list"; "-1"; "HEAD.." ++ root_sha1]
                                   REPOSITORY_ROOT false;
  if negb (truthy (PStr new_commits))
  then
    print ("No new commits to merge from " ++ git_url ++ " branch " ++ git_branch ++
           " at r" ++ svn_revision ++ " (" ++ root_sha1 ++ ")");;
    mret PNone
  else
    print ("Snapshotting Chromium from " ++ git_url ++ " branch " ++ git_branch ++
           " at r" ++ svn_revision ++ " (" ++ root_sha1 ++ ")");;
    _MergeProjects fuel git_url git_branch svn_revision root_sha1;;
    _GenerateNoticeFile svn_revision;;
    _GenerateMakefiles svn_revision;;
    mret PNone.

Definition default_options : options :=
  Options "http://git.chromium.org/chromium/src.git" "git-svn" None.

Definition main (fuel : nat) (argv : list string) (environ : gmap string string) : M Z :=
  '(options, args) ← lift (parse_args default_options argv);
  match args with
  | _ :: _ => emit EPrintHelp;; mret 1
  | [] =>
      if negb (bool_decide (is_Some (environ !! "ANDROID_BUILD_TOP")))
      then
        print_stderr "You need to run the Android envsetup.sh and lunch.";;
        mret 1
      else
        snapshot ← _Snapshot fuel (git_url options) (git_branch options)
                             (svn_revision options);
        if negb (truthy snapshot) then mret 1 else mret 0
  end.

End Script.

Arguments state World : clear implicits.
Arguments M World A : clear implicits.

(** ** The specification's reading of two resolver steps

    These two definitions follow the words of the specification, not the
    script; they are what the script is compared with. *)

(** "Split on the last [@]": the text before the last [@] and the text
    after it. *)
Fixpoint spec_split_on_last_at (s : string) : option (string * string) :=
  match s with
  | EmptyString => None
  | String a t =>
      match spec_split_on_last_at t with
      | Some (u, r) => Some (String a u, r)
      | None => if Ascii.eqb a at_sign then Some (EmptyString, t) else None
      end
  end.

(** "Use the first source that contains an entry for that path". *)
Fixpoint spec_first_defined (sources : list (gmap string pyval)) (key : string)
    : option pyval :=
  match sources with
  | [] => None
  | d :: rest =>
      match d !! key with
      | Some v => Some v
      | None => spec_first_defined rest key
      end
  end.

(** ** A scripted world

    A world that can be run: subprocesses answer from a queue of prepared
    responses and succeed silently once the queue is empty; the operator
    types prepared answers; the manifest is a fixed dictionary. *)

Module Scripted.

Record world : Type := World
  { responses : list (Z * string * string);
    answers : list string;
    known_incompatible : list (string * list string);
    left_over : list string;
    written : list (string * string) }.

Definition run (args : list string) (cwd : string) (w : world)
    : result (Z * string * string) * world :=
  match responses w with
  | [] => (Ok (0, "", ""), w)
  | r :: rest =>
      (Ok r, World rest (answers w) (known_incompatible w) (left_over w) (written w))
  end.

Definition answer (prompt : string) (w : world) : result string * world :=
  match answers w with
  | [] => (Raise (OtherError "EOFError"), w)
  | a :: rest =>
      (Ok a, World (responses w) rest (known_incompatible w) (left_over w) (written w))
  end.

Definition write (path contents : string) (w : world) : result unit * world :=
  (Ok tt, World (responses w) (answers w) (known_incompatible w) (left_over w)
                ((path, contents) :: written w)).

Definition entry (project : string) : string * pyval :=
  ("src/" ++ project, PStr ("https://git.example/" ++ project ++ ".git@0123abc")).

(** A manifest that defines every project of [THIRD_PARTY_PROJECTS]. *)
Definition manifest : gmap string pyval :=
  {[ "deps" := PDict (list_to_map (map entry THIRD_PARTY_PROJECTS));
     "deps_os" := PDict {[ "unix" := PDict ∅; "android" := PDict ∅ ]} ]}.

Definition quote (a : string) : string := "'" ++ a ++ "'".

#[global] Instance runtime : Runtime world :=
  {| REPOSITORY_ROOT := "/android/external/chromium_org";
     popen := run;
     raw_input := answer;
     write_file := write;
     exec_deps := fun _ _ => Ok manifest;
     import_license_modules := fun w => (Ok (known_incompatible w), w);
     GetIncompatibleDirectories := fun w => (Ok (left_over w), w);
     GenerateNoticeFile := fun w => (Ok "NOTICE", w);
     parse_args := fun defaults argv => Ok (defaults, argv);
     repr_list := fun l => "[" ++ join ", " (map quote l) ++ "]";
     dict_keys := fun m => map fst (map_to_list m) |}.

Definition start (rs : list (Z * string * string)) (left : list string) : state world :=
  State (World rs [] [] left []) [] false.

End Scripted.

(** ** Reading the resolver and the trace

    The notions in which the properties are stated. *)

(** What [if url_plus_sha1:] sees of a source: whether its entry for the
    key is there and true. *)
Definition usable (d : gmap string pyval) (key : string) : bool :=
  truthy (default PNone (d !! key)).

(** The directory for which an event is a successful [git status
    --porcelain] whose output has a line starting with one of [MADRC]. *)
Definition staged_report (e : event) : option string :=
  match e with
  | ECmd ["git"; "status"; "--porcelain"] cwd (Ok (0, status, _)) =>
      if search_staged status then Some cwd else None
  | _ => None
  end.

Definition is_commit_in (cwd : string) (e : event) : bool :=
  (is_commit e &&
   match e with
   | ECmd _ cwd' _ => String.eqb cwd cwd'
   | _ => false
   end)%bool.

(** Every commit comes directly after a status report that shows staged
    changes in the same directory, and every such report is directly
    followed by a commit there. *)
Fixpoint commits_guarded (t : list event) : bool :=
  match t with
  | [] => true
  | e :: t' =>
      if is_commit e then false
      else match staged_report e with
           | Some cwd =>
               match t' with
               | c :: t'' => (is_commit_in cwd c && commits_guarded t'')%bool
               | [] => false
               end
           | None => commits_guarded t'
           end
  end.

(** An event that is neither a commit nor a report of staged changes. *)
Definition neutral (e : event) : bool :=
  (negb (is_commit e) &&
   match staged_report e with Some _ => false | None => true end)%bool.

Section TraceOf.

Context {World : Type}.

(** Whatever the state, the computation appends to the trace events
    that satisfy [P]. *)
Definition emits {A : Type} (m : M World A) (P : list event -> Prop) : Prop :=
  forall st : state World,
    exists delta : list event, trace (snd (m st)) = (trace st ++ delta)%list /\ P delta.

Definition guarded (delta : list event) : Prop := commits_guarded delta = true.

End TraceOf.


(** The line [_GetThirdPartyProjectMergeInfo] prints for a project, when
    the project resolves in the given sources. *)
Definition resolved_line (order : list pyval) (path : string) : option event :=
  match project_merge_info order path with
  | Ok info => Some (EStdout ("  Got URL " ++ url info ++ " and SHA1 " ++ sha1 info ++
                              " for project " ++ path))
  | _ => None
  end.

Section ResultOf.

Context {World : Type}.

(** Whatever the state, the computation ends with a result and appends
    to the trace events that together satisfy [Q]. *)
Definition yields {A : Type} (m : M World A) (Q : result A -> list event -> Prop) : Prop :=
  forall st : state World,
    exists delta : list event,
      trace (snd (m st)) = (trace st ++ delta)%list /\ Q (fst (m st)) delta.

End ResultOf.

(** Events among which there is no commit. *)
Definition quiet (t : list event) : Prop := Forall (fun e => is_commit e = false) t.

(** What the operator typed at the prompts of a trace, in order. *)
Definition prompt_answers (t : list event) : list string :=
  omap (fun e => match e with
                 | EPrompt _ (Ok answer) => Some answer
                 | _ => None
                 end) t.

(** The commit message in force after the operator's answers: each answer
    that is not empty replaces the message. *)
Fixpoint message_after (commit_message : string) (answers : list string) : string :=
  match answers with
  | [] => commit_message
  | a :: rest => message_after (if truthy (PStr a) then a else commit_message) rest
  end.

(** Events among which there is neither a commit nor an answered prompt. *)
Definition silent (t : list event) : Prop := quiet t /\ prompt_answers t = [].

(** The number of commits among the events of a trace. *)
Fixpoint commits_in (t : list event) : nat :=
  match t with
  | [] => O
  | e :: t' => ((if is_commit e then 1 else 0) + commits_in t')%nat
  end.

(** A trace with at most [n] commits. *)
Definition at_most (n : nat) (d : list event) : Prop := (commits_in d <= n)%nat.

Section ModuleGlobal.

Context {World : Type}.

(** The computation leaves the module global [webview_licenses] as it
    found it. *)
Definition keeps_modules {A : Type} (m : M World A) : Prop :=
  forall st : state World, webview_licenses (snd (m st)) = webview_licenses st.

End ModuleGlobal.

Definition is_merge (e : event) : bool :=
  match e with
  | ECmd ("git" :: "merge" :: _) _ _ => true
  | _ => false
  end.

(** A successful [git rev-list -1 HEAD..sha1] that printed something:
    there is history to merge. *)
Definition new_commits_report (e : event) : bool :=
  match e with
  | ECmd ("git" :: "rev-list" :: _) _ (Ok (0, out, _)) => truthy (PStr out)
  | _ => false
  end.

(** An event that is no merge, no commit and no prompt. *)
Definition calm (e : event) : bool :=
  (negb (is_merge e) && negb (is_commit e) && negb (is_prompt e))%bool.

(** When no [git rev-list] among the events reports new commits, the
    events are all calm. *)
Definition merges_need_new_commits (d : list event) : Prop :=
  Forall (fun e => new_commits_report e = false) d -> Forall (fun e => calm e = true) d.


Definition is_rm (e : event) : bool :=
  match e with
  | ECmd ("git" :: "rm" :: _) _ _ => true
  | _ => false
  end.

(** * Properties *)

(** ** Strings *)

Lemma partition_at_app (c : ascii) (u r : string) :
  contains_char c u = false ->
  partition_at c (u ++ String c r) = Some (u, r).
Proof.
  induction u as [|a u IH]; simpl; intros H.
  - now rewrite Ascii.eqb_refl.
  - apply orb_false_iff in H as [Ha Hu].
    rewrite Ha, (IH Hu). reflexivity.
Qed.

Lemma partition_at_inv (c : ascii) (s u r : string) :
  partition_at c s = Some (u, r) ->
  s = u ++ String c r /\ contains_char c u = false.
Proof.
  revert u r. induction s as [|a s IH]; simpl; intros u r H; [discriminate|].
  destruct (Ascii.eqb a c) eqn:E.
  - apply Ascii.eqb_eq in E. inversion H; subst. split; reflexivity.
  - destruct (partition_at c s) as [[u' r']|] eqn:P; [|discriminate].
    inversion H; subst. destruct (IH _ _ eq_refl) as [-> Hu].
    split; [reflexivity|]. simpl. now rewrite E.
Qed.

Lemma partition_at_some (c : ascii) (s : string) :
  contains_char c s = true -> is_Some (partition_at c s).
Proof.
  induction s as [|a s IH]; simpl; [discriminate|].
  destruct (Ascii.eqb a c); simpl; intros H; [eauto|].
  destruct (IH H) as [[u r] ->]. eauto.
Qed.

Lemma until_lf_id (s : string) : contains_char LF s = false -> until_lf s = s.
Proof.
  induction s as [|a s IH]; simpl; [reflexivity|].
  intros H. apply orb_false_iff in H as [Ha Hs].
  rewrite Ha, (IH Hs). reflexivity.
Qed.

Lemma until_lf_app (u : string) (c : ascii) (r : string) :
  contains_char LF u = false -> c <> LF ->
  until_lf (u ++ String c r) = u ++ String c (until_lf r).
Proof.
  intros Hu Hc. induction u as [|a u IH]; simpl in *.
  - destruct (Ascii.eqb c LF) eqn:E; [apply Ascii.eqb_eq in E; contradiction|reflexivity].
  - apply orb_false_iff in Hu as [Ha Hu]. rewrite Ha, (IH Hu). reflexivity.
Qed.

(** ** The [Var] syntax *)

(** C8. A variable is looked up in the caller's override mapping first and
    in the manifest's own [vars] mapping second, and the first value found
    is returned; when neither defines the name, the lookup raises an
    exception whose message names the variable. *)
Theorem C8_Lookup_order (custom scope vars : gmap string pyval) (var_name : string) :
  VarImpl.local_vars (VarImpl.mk custom scope) = PDict vars ->
  VarImpl.Lookup (VarImpl.mk custom scope) var_name =
    match custom !! var_name with
    | Some v => Ok v
    | None =>
        match vars !! var_name with
        | Some v => Ok v
        | None => Raise (Exception ("Var is not defined: " ++ var_name))
        end
    end.
Proof.
  intros Hvars. unfold VarImpl.Lookup. rewrite Hvars. cbn.
  destruct (custom !! var_name) as [v|] eqn:Hc.
  - rewrite bool_decide_eq_true_2 by eauto. unfold getitem. now rewrite Hc.
  - rewrite bool_decide_eq_false_2 by (intros [? ?]; discriminate).
    cbn. destruct (vars !! var_name) as [v|] eqn:Hv.
    + rewrite bool_decide_eq_true_2 by eauto.
      unfold VarImpl.local_vars in Hvars. cbn in Hvars.
      destruct (scope !! "vars") as [d|] eqn:Hs; cbn in Hvars.
      * subst d. unfold getitem. rewrite Hs. cbn. unfold getitem. now rewrite Hv.
      * inversion Hvars; subst. rewrite lookup_empty in Hv. discriminate.
    + rewrite bool_decide_eq_false_2 by (intros [? ?]; discriminate).
      reflexivity.
Qed.

Lemma C8_Lookup_order_witness :
  VarImpl.Lookup
    (VarImpl.mk {[ "webkit_rev" := PStr "override" ]}
                {[ "vars" := PDict {[ "webkit_rev" := PStr "@1234";
                                      "git_url" := PStr "https://git.example" ]} ]})
    "git_url" = Ok (PStr "https://git.example").
Proof.
  rewrite (C8_Lookup_order _ _ {[ "webkit_rev" := PStr "@1234";
                                  "git_url" := PStr "https://git.example" ]})
    by reflexivity.
  reflexivity.
Defined.

(** ** Splitting a manifest entry *)

Lemma split_entry_first_at (u r : string) :
  contains_char at_sign u = false ->
  contains_char LF u = false ->
  split_entry (PStr (u ++ "@" ++ r)) = Ok (ProjectInfo u (until_lf r)).
Proof.
  intros Hat Hlf. unfold split_entry, re_match_url_sha1.
  change (u ++ "@" ++ r) with (u ++ String at_sign r).
  rewrite until_lf_app by (assumption || discriminate).
  now rewrite partition_at_app.
Qed.

(** C3 as stated fails: with two [@] in the entry, the split on the last
    one is not what the resolver computes. *)
Lemma C3_counterexample :
  ~ (forall s u r : string,
       spec_split_on_last_at s = Some (u, r) ->
       split_entry (PStr s) = Ok (ProjectInfo u r)).
Proof.
  intros H.
  specialize (H "https://user@host/repo@deadbeef" "https://user@host/repo" "deadbeef"
                eq_refl).
  vm_compute in H. discriminate H.
Qed.

(** C9, amended. For every entry that holds an [@] and no line feed, the
    pair the resolver produces gives the entry back when joined with [@],
    and its url holds no [@]. *)
Theorem C9_split_roundtrip (s : string) :
  contains_char at_sign s = true ->
  contains_char LF s = false ->
  exists info,
    split_entry (PStr s) = Ok info /\
    url info ++ "@" ++ sha1 info = s /\
    contains_char at_sign (url info) = false.
Proof.
  intros Hat Hlf. unfold split_entry, re_match_url_sha1.
  rewrite until_lf_id by assumption.
  destruct (partition_at_some _ _ Hat) as [[u r] Hp]. rewrite Hp.
  apply partition_at_inv in Hp as [-> Hu].
  exists (ProjectInfo u r). repeat split; assumption || reflexivity.
Qed.

Lemma C9_split_roundtrip_witness :
  exists info,
    split_entry (PStr "https://u/icu@abc123") = Ok info /\
    url info ++ "@" ++ sha1 info = "https://u/icu@abc123" /\
    contains_char at_sign (url info) = false.
Proof. apply (C9_split_roundtrip "https://u/icu@abc123"); reflexivity. Defined.

(** C9 as stated fails on an entry that continues on a second line: the
    revision stops at the line feed, and the pair no longer gives the
    entry back. *)
Lemma C9_counterexample :
  ~ (forall s : string,
       contains_char at_sign s = true ->
       exists info,
         split_entry (PStr s) = Ok info /\
         url info ++ "@" ++ sha1 info = s /\
         contains_char at_sign (url info) = false).
Proof.
  intros H. destruct (H ("a@b" ++ nl ++ "c") eq_refl) as (info & Hsplit & Hback & _).
  vm_compute in Hsplit. injection Hsplit as <-. vm_compute in Hback. discriminate Hback.
Qed.

(** ** Running the monad *)

Section Running.

Context {World : Type} `{RT : Runtime World}.

Lemma run_bind {A B : Type} (m : M World A) (k : A -> M World B) (st : state World) :
  (m ≫= k) st =
    match m st return result B * state World with
    | (Ok a, st') => k a st'
    | (Raise e, st') => (Raise e, st')
    | (OutOfFuel, st') => (OutOfFuel, st')
    end.
Proof. reflexivity. Qed.

Lemma run_ret {A : Type} (a : A) (st : state World) :
  (mret a : M World A) st = (Ok a, st).
Proof. reflexivity. Qed.

Lemma run_bind_ok {A B : Type} (m : M World A) (k : A -> M World B) (st st' : state World) (a : A) :
  m st = (Ok a, st') -> (m ≫= k) st = k a st'.
Proof. intros H. rewrite run_bind, H. reflexivity. Qed.

(** A command that exits with status 0 returns its standard output. *)
Lemma run_command_ok (args : list string) (cwd : string) (ignore_errors : bool)
    (st : state World) (out err : string) (w : World) :
  popen args cwd (world st) = (Ok (0, out, err), w) ->
  _GetCommandStdout args cwd ignore_errors st =
    (Ok out, State w (trace st ++ [ECmd args cwd (Ok (0, out, err))]) (webview_licenses st)).
Proof.
  intros H. unfold _GetCommandStdout. rewrite run_bind. unfold ask. rewrite H.
  reflexivity.
Qed.

End Running.

(** ** The revision resolver *)

Lemma find_entry_ok (order : list pyval) (key : string) :
  find_entry order key <> OutOfFuel.
Proof.
  induction order as [|d order IH]; cbn; [discriminate|].
  destruct d; cbn; try discriminate.
  destruct (truthy _); [discriminate | exact IH].
Qed.

Lemma project_merge_info_ok (order : list pyval) (path : string) :
  project_merge_info order path <> OutOfFuel.
Proof.
  unfold project_merge_info.
  pose proof (find_entry_ok order (path_join "src" path)) as H.
  destruct (find_entry order (path_join "src" path)) as [[v|]|e|]; cbn;
    try discriminate; try contradiction.
  unfold split_entry. destruct v; try discriminate.
  destruct (re_match_url_sha1 s) as [[? ?]|]; discriminate.
Qed.

Lemma deps_fallback_order_dicts (deps_vars deps_os deps unix android : gmap string pyval) :
  deps_vars !! "deps" = Some (PDict deps) ->
  deps_vars !! "deps_os" = Some (PDict deps_os) ->
  deps_os !! "unix" = Some (PDict unix) ->
  deps_os !! "android" = Some (PDict android) ->
  deps_fallback_order deps_vars = Ok [PDict deps; PDict unix; PDict android].
Proof.
  intros H1 H2 H3 H4. unfold deps_fallback_order, getitem.
  rewrite H1, H2. cbn. unfold getitem. rewrite H3. cbn. rewrite H4. reflexivity.
Qed.

Lemma path_join_src (path : string) :
  startswith "/" path = false -> path_join "src" path = "src/" ++ path.
Proof. intros H. unfold path_join. rewrite H. reflexivity. Qed.

(** C2, amended. With the three sources [deps], [deps_os['unix']] and
    [deps_os['android']] present, the resolver searches them in that
    order under the key [os.path.join('src', path)], which is [src/]
    followed by the path for a path that does not begin with [/], and
    takes the entry of the first source whose entry for the key is true in
    Python's sense (there, and neither [None] nor empty); that entry is
    what is split into url and revision.  In particular a true entry in
    [deps] is taken whatever [deps_os['android']] holds. *)
Theorem C2_first_usable_source_wins
    (deps_vars deps_os deps unix android : gmap string pyval) (path : string) :
  deps_vars !! "deps" = Some (PDict deps) ->
  deps_vars !! "deps_os" = Some (PDict deps_os) ->
  deps_os !! "unix" = Some (PDict unix) ->
  deps_os !! "android" = Some (PDict android) ->
  startswith "/" path = false ->
  deps_fallback_order deps_vars = Ok [PDict deps; PDict unix; PDict android] /\
  path_join "src" path = "src/" ++ path /\
  (forall v,
     deps !! ("src/" ++ path) = Some v -> truthy v = true ->
     project_merge_info [PDict deps; PDict unix; PDict android] path = split_entry v) /\
  (forall v,
     usable deps ("src/" ++ path) = false ->
     unix !! ("src/" ++ path) = Some v -> truthy v = true ->
     project_merge_info [PDict deps; PDict unix; PDict android] path = split_entry v) /\
  (forall v,
     usable deps ("src/" ++ path) = false ->
     usable unix ("src/" ++ path) = false ->
     android !! ("src/" ++ path) = Some v -> truthy v = true ->
     project_merge_info [PDict deps; PDict unix; PDict android] path = split_entry v).
Proof.
  intros H1 H2 H3 H4 Hrel.
  split; [now apply (deps_fallback_order_dicts _ deps_os)|].
  split; [now apply path_join_src|].
  unfold project_merge_info, usable. rewrite (path_join_src _ Hrel). cbn.
  repeat split; intros v.
  - intros Hd Hv. rewrite Hd. cbn. rewrite Hv. reflexivity.
  - intros Hd Hu Hv. rewrite Hd, Hu. cbn. rewrite Hv. reflexivity.
  - intros Hd Hu Ha Hv. rewrite Hd, Hu, Ha. cbn. rewrite Hv. reflexivity.
Qed.

Lemma C2_first_usable_source_wins_witness :
  project_merge_info
    [PDict {[ "src/third_party/icu" := PStr "https://u/icu@abc123" ]};
     PDict ∅;
     PDict {[ "src/third_party/icu" := PStr "https://other/icu@fff" ]}]
    "third_party/icu" = Ok (ProjectInfo "https://u/icu" "abc123").
Proof.
  pose proof (C2_first_usable_source_wins
    {[ "deps" := PDict {[ "src/third_party/icu" := PStr "https://u/icu@abc123" ]};
       "deps_os" := PDict {[ "unix" := PDict ∅;
                             "android" := PDict {[ "src/third_party/icu" :=
                                                     PStr "https://other/icu@fff" ]} ]} ]}
    {[ "unix" := PDict ∅;
       "android" := PDict {[ "src/third_party/icu" := PStr "https://other/icu@fff" ]} ]}
    {[ "src/third_party/icu" := PStr "https://u/icu@abc123" ]}
    ∅
    {[ "src/third_party/icu" := PStr "https://other/icu@fff" ]}
    "third_party/icu" eq_refl eq_refl eq_refl eq_refl eq_refl) as (_ & _ & Hdeps & _).
  rewrite (Hdeps (PStr "https://u/icu@abc123")); reflexivity.
Defined.

(** C2 as stated fails: a source can define the path with a value that is
    not true, here [None] in [deps_os['unix']], and the resolver then
    passes on to the next source instead of returning that entry. *)
Lemma C2_counterexample :
  ~ (forall (deps unix android : gmap string pyval) (path : string),
       find_entry [PDict deps; PDict unix; PDict android] (path_join "src" path) =
       Ok (spec_first_defined [deps; unix; android] ("src/" ++ path))).
Proof.
  intros H.
  specialize (H ∅ {[ "src/third_party/icu" := PNone ]}
                {[ "src/third_party/icu" := PStr "https://u/icu@abc123" ]}
                "third_party/icu").
  vm_compute in H. discriminate H.
Qed.

Section ResolverLoop.

Context {World : Type} `{RT : Runtime World}.

Lemma merge_info_loop_stops (order : list pyval) (before after : list string)
    (path : string) (e : exn) :
  Forall (fun p => exists i, project_merge_info order p = Ok i) before ->
  project_merge_info order path = Raise e ->
  forall (result : gmap string project_info) (st : state World),
  exists st', merge_info_loop order (before ++ path :: after) result st = (Raise e, st').
Proof.
  intros Hbefore Hpath. induction Hbefore as [|p before [i Hp] _ IH]; intros result st.
  - cbn [app merge_info_loop]. rewrite run_bind. unfold lift. rewrite Hpath. eauto.
  - cbn [app merge_info_loop]. rewrite run_bind. unfold lift. rewrite Hp.
    rewrite run_bind. cbn [print emit]. apply IH.
Qed.

Lemma merge_info_loop_fails (order : list pyval) (projects : list string)
    (path : string) (e : exn) :
  project_merge_info order path = Raise e ->
  In path projects ->
  forall (result : gmap string project_info) (st : state World),
  exists e' st', merge_info_loop order projects result st = (Raise e', st').
Proof.
  intros Hpath. induction projects as [|p projects IH]; intros Hin result st.
  - destruct Hin.
  - cbn [merge_info_loop]. rewrite run_bind. unfold lift.
    destruct (project_merge_info order p) as [i|e'|] eqn:Hp.
    + rewrite run_bind. cbn [print emit].
      destruct Hin as [->|Hin]; [congruence | now apply IH].
    + eauto.
    + now apply project_merge_info_ok in Hp.
Qed.

(** C4. When the key of a requested path is in none of the three
    sources, resolving that path raises an error whose message names
    the path: it is the error of the whole resolver as soon as the paths
    before it resolve, and in no case does the resolver return a result
    mapping. *)
Theorem C4_missing_dependency
    (deps_vars deps_os deps unix android : gmap string pyval) (path : string) :
  deps_vars !! "deps" = Some (PDict deps) ->
  deps_vars !! "deps_os" = Some (PDict deps_os) ->
  deps_os !! "unix" = Some (PDict unix) ->
  deps_os !! "android" = Some (PDict android) ->
  deps !! path_join "src" path = None ->
  unix !! path_join "src" path = None ->
  android !! path_join "src" path = None ->
  project_merge_info [PDict deps; PDict unix; PDict android] path =
    Raise (RuntimeError
             ("Could not find .DEPS.git entry for project " ++ path ++
              ". This probably means that the project list in snapshot.py " ++
              "needs to be updated.")) /\
  (forall (before after : list string) (st : state World),
     Forall (fun p => exists i,
               project_merge_info [PDict deps; PDict unix; PDict android] p = Ok i)
            before ->
     exists st',
       _GetThirdPartyProjectMergeInfo (before ++ path :: after) deps_vars st =
         (Raise (RuntimeError (missing_entry_message path)), st')) /\
  (forall (projects : list string) (st : state World),
     In path projects ->
     exists e st',
       _GetThirdPartyProjectMergeInfo projects deps_vars st = (Raise e, st')).
Proof.
  intros H1 H2 H3 H4 Hd Hu Ha.
  assert (Hpath : project_merge_info [PDict deps; PDict unix; PDict android] path =
                  Raise (RuntimeError (missing_entry_message path))).
  { unfold project_merge_info. cbn. rewrite Hd, Hu, Ha. reflexivity. }
  pose proof (deps_fallback_order_dicts _ _ _ _ _ H1 H2 H3 H4) as Horder.
  split; [exact Hpath|]. split.
  - intros before after st Hbefore. unfold _GetThirdPartyProjectMergeInfo.
    rewrite run_bind. unfold lift. rewrite Horder.
    now apply merge_info_loop_stops.
  - intros projects st Hin. unfold _GetThirdPartyProjectMergeInfo.
    rewrite run_bind. unfold lift. rewrite Horder.
    now apply (merge_info_loop_fails _ _ path _ Hpath).
Qed.

End ResolverLoop.

Lemma C4_missing_dependency_witness :
  project_merge_info
    [PDict {[ "src/v8" := PStr "https://u/v8@abc123" ]}; PDict ∅; PDict ∅]
    "third_party/icu" =
  Raise (RuntimeError
           ("Could not find .DEPS.git entry for project " ++ "third_party/icu" ++
            ". This probably means that the project list in snapshot.py " ++
            "needs to be updated.")).
Proof.
  apply (@C4_missing_dependency Scripted.world
           {[ "deps" := PDict {[ "src/v8" := PStr "https://u/v8@abc123" ]};
              "deps_os" := PDict {[ "unix" := PDict ∅; "android" := PDict ∅ ]} ]}
           {[ "unix" := PDict ∅; "android" := PDict ∅ ]}
           {[ "src/v8" := PStr "https://u/v8@abc123" ]} ∅ ∅ "third_party/icu");
    reflexivity.
Defined.

(** ** The merge orchestrator *)

Lemma conflict_line_same (l x : string) : conflict_line l = Some x -> x = l.
Proof.
  unfold conflict_line. destruct (existsb _ _); [|discriminate].
  destruct (drop_str 3 l); [discriminate|]. congruence.
Qed.




Section Orchestrator.

Context {World : Type} `{RT : Runtime World}.

(** C7. Once the merges and the exclusion pass are through, the merge
    step ends on the scanner's answer: with directories left over it
    raises an error whose message lists them, and the snapshot raises
    that error with nothing run after the scan; with none left over it
    returns [True]. *)
Theorem C7_left_over_directories_are_fatal
    (fuel : nat) (git_url git_branch svn_revision root_sha1 : string)
    (st st1 : state World) (directories_left_over : list string) (w2 : World) :
  merge_and_exclude fuel git_url git_branch svn_revision root_sha1 st = (Ok tt, st1) ->
  GetIncompatibleDirectories (world st1) = (Ok directories_left_over, w2) ->
  _MergeProjects fuel git_url git_branch svn_revision root_sha1 st =
    (match directories_left_over with
     | [] => Ok true
     | _ => Raise (RuntimeError ("Incompatibly licensed directories remain: " ++
                                 join nl directories_left_over))
     end,
     State w2 (trace st1) (webview_licenses st1)) /\
  (directories_left_over <> [] ->
   forall (st0 sta stb : state World) (revision : option string) (new_commits : string),
     _GetSVNRevisionAndSHA1 git_url git_branch revision st0 =
       (Ok (svn_revision, root_sha1), sta) ->
     _GetCommandStdout ["git"; "rev-list"; "-1"; "HEAD.." ++ root_sha1]
                       REPOSITORY_ROOT false sta = (Ok new_commits, stb) ->
     new_commits <> "" ->
     st = State (world stb)
                (trace stb ++
                 [EStdout ("Snapshotting Chromium from " ++ git_url ++ " branch " ++
                           git_branch ++ " at r" ++ svn_revision ++
                           " (" ++ root_sha1 ++ ")")])
                (webview_licenses stb) ->
     _Snapshot fuel git_url git_branch revision st0 =
       (Raise (RuntimeError ("Incompatibly licensed directories remain: " ++
                             join nl directories_left_over)),
        State w2 (trace st1) (webview_licenses st1))).
Proof.
  intros Hmerge Hscan.
  assert (Hm : _MergeProjects fuel git_url git_branch svn_revision root_sha1 st =
    (match directories_left_over with
     | [] => Ok true
     | _ => Raise (RuntimeError ("Incompatibly licensed directories remain: " ++
                                 join nl directories_left_over))
     end,
     State w2 (trace st1) (webview_licenses st1))).
  { unfold _MergeProjects. rewrite (run_bind_ok _ _ _ _ _ Hmerge).
    unfold check_directories_left_over. rewrite run_bind. unfold ask.
    rewrite Hscan. cbn [option_list]. rewrite app_nil_r.
    destruct directories_left_over; reflexivity. }
  split; [exact Hm|].
  intros Hne st0 sta stb revision new_commits Hrev Hlist Hnew Hst.
  unfold _Snapshot. rewrite (run_bind_ok _ _ _ _ _ Hrev).
  rewrite (run_bind_ok _ _ _ _ _ Hlist).
  assert (Ht : truthy (PStr new_commits) = true).
  { cbn. destruct new_commits; [contradiction | reflexivity]. }
  rewrite Ht. cbn [negb]. rewrite run_bind. cbn [print emit]. rewrite <- Hst.
  rewrite run_bind, Hm. destruct directories_left_over; [contradiction | reflexivity].
Qed.

End Orchestrator.

Lemma C7_left_over_directories_are_fatal_witness :
  fst (_MergeProjects 1 "https://git.example/src.git" "git-svn" "1234" "0123abc"
         (Scripted.start [] ["third_party/bad"; "third_party/worse"])) =
  Raise (RuntimeError ("Incompatibly licensed directories remain: " ++
                       "third_party/bad" ++ nl ++ "third_party/worse")).
Proof.
  pose proof (C7_left_over_directories_are_fatal
    1 "https://git.example/src.git" "git-svn" "1234" "0123abc"
    (Scripted.start [] ["third_party/bad"; "third_party/worse"])
    (snd (merge_and_exclude 1 "https://git.example/src.git" "git-svn" "1234" "0123abc"
            (Scripted.start [] ["third_party/bad"; "third_party/worse"])))
    ["third_party/bad"; "third_party/worse"]
    (Scripted.World [] [] [] ["third_party/bad"; "third_party/worse"] [])) as H.
  destruct H as [H _]; [vm_compute; reflexivity | vm_compute; reflexivity |].
  rewrite H. reflexivity.
Defined.

(** ** Commits and the index *)

Lemma commits_guarded_app (a b : list event) :
  commits_guarded a = true -> commits_guarded b = true ->
  commits_guarded (a ++ b) = true.
Proof.
  remember (List.length a) as n eqn:Hn. revert a Hn.
  induction n as [n IH] using lt_wf_ind. intros a Hn Ha Hb.
  destruct a as [|e a]; [exact Hb|].
  cbn [app commits_guarded] in *. destruct (is_commit e); [discriminate|].
  destruct (staged_report e) as [cwd|].
  - destruct a as [|c a]; [discriminate|]. cbn [app].
    apply andb_true_iff in Ha as [Hc Ha]. rewrite Hc. cbn [andb].
    apply (IH (List.length a)); [subst n; cbn; lia | reflexivity | assumption | assumption].
  - apply (IH (List.length a)); [subst n; cbn; lia | reflexivity | assumption | assumption].
Qed.

Lemma neutral_guarded (t : list event) :
  forallb neutral t = true -> commits_guarded t = true.
Proof.
  induction t as [|e t IH]; [reflexivity|]. cbn [forallb commits_guarded].
  intros H. apply andb_true_iff in H as [He Ht]. unfold neutral in He.
  apply andb_true_iff in He as [Hc Hs]. apply negb_true_iff in Hc. rewrite Hc.
  destruct (staged_report e); [discriminate | now apply IH].
Qed.

(** Without a report of staged changes there is no commit. *)
Lemma commits_guarded_no_report (t : list event) :
  commits_guarded t = true ->
  Forall (fun e => staged_report e = None) t ->
  Forall (fun e => is_commit e = false) t.
Proof.
  intros Hg Hn. induction Hn as [|e t He Hn IH]; [constructor|].
  cbn [commits_guarded] in Hg. destruct (is_commit e) eqn:Hc; [discriminate|].
  rewrite He in Hg. constructor; [exact Hc | now apply IH].
Qed.

Section Traces.

Context {World : Type} `{RT : Runtime World}.

Lemma emits_ext {A : Type} (m m' : M World A) (P : list event -> Prop) :
  (forall st, m st = m' st) -> emits m P -> emits m' P.
Proof. intros E H st. rewrite <- E. apply H. Qed.

Lemma emits_nothing {A : Type} (m : M World A) :
  (forall st, trace (snd (m st)) = trace st) -> emits m guarded.
Proof. intros H st. exists []. rewrite H, app_nil_r. split; reflexivity. Qed.

Lemma emits_bind {A B : Type} (m : M World A) (k : A -> M World B) :
  emits m guarded -> (forall a, emits (k a) guarded) -> emits (m ≫= k) guarded.
Proof.
  intros Hm Hk st. rewrite run_bind. destruct (Hm st) as (d1 & E1 & G1).
  destruct (m st) as [[a|e|] st1]; cbn [snd] in *; [|eauto..].
  destruct (Hk a st1) as (d2 & E2 & G2). exists (d1 ++ d2)%list.
  split; [now rewrite E2, E1, app_assoc | now apply commits_guarded_app].
Qed.

Lemma bind_assoc_run {A B C : Type} (m : M World A) (f : A -> M World B)
    (g : B -> M World C) (st : state World) :
  ((m ≫= f) ≫= g) st = (m ≫= (fun a => f a ≫= g)) st.
Proof. rewrite !run_bind. destruct (m st) as [[a|e|] st1]; reflexivity. Qed.

Lemma emits_print (line : string) : emits (print line : M World unit) guarded.
Proof. intros st. exists [EStdout line]. split; reflexivity. Qed.

(** What a command adds to the trace, case by case. *)
Lemma run_command (args : list string) (cwd : string) (ignore_errors : bool)
    (st : state World) :
  _GetCommandStdout args cwd ignore_errors st =
    let '(r, w) := popen args cwd (world st) in
    let st1 := State w (trace st ++ [ECmd args cwd r]) (webview_licenses st) in
    match r with
    | Ok (returncode, stdout, stderr) =>
        if ((returncode =? 0) || ignore_errors)%bool then (Ok stdout, st1)
        else (Raise (Exception "Command execution failed"),
              State w ((trace st1 ++
                        [EStderr ("Running command " ++ repr_list args ++ " failed:")]) ++
                       [EStderr stderr]) (webview_licenses st))
    | Raise e => (Raise e, st1)
    | OutOfFuel => (OutOfFuel, st1)
    end.
Proof.
  unfold _GetCommandStdout. rewrite run_bind. unfold ask.
  destruct (popen args cwd (world st)) as [[[[rc out] err]|e|] w]; cbn [option_list];
    try reflexivity.
  destruct ((rc =? 0) || ignore_errors)%bool; reflexivity.
Qed.

Lemma emits_command (args : list string) (cwd : string) (ignore_errors : bool) :
  (forall r, neutral (ECmd args cwd r) = true) ->
  emits (_GetCommandStdout args cwd ignore_errors) guarded.
Proof.
  intros Hn st. rewrite run_command.
  destruct (popen args cwd (world st)) as [[[[rc out] err]|e|] w] eqn:Hp.
  - destruct ((rc =? 0) || ignore_errors)%bool; cbn [snd trace].
    + exists [ECmd args cwd (Ok (rc, out, err))]. split; [reflexivity|].
      apply neutral_guarded. cbn [forallb]. now rewrite Hn.
    + exists [ECmd args cwd (Ok (rc, out, err));
              EStderr ("Running command " ++ repr_list args ++ " failed:");
              EStderr err].
      split; [now rewrite <- !app_assoc|].
      apply neutral_guarded. cbn [forallb]. now rewrite Hn.
  - exists [ECmd args cwd (Raise e)]. split; [reflexivity|].
    apply neutral_guarded. cbn [forallb]. now rewrite Hn.
  - exists [ECmd args cwd OutOfFuel]. split; [reflexivity|].
    apply neutral_guarded. cbn [forallb]. now rewrite Hn.
Qed.

(** The pattern the three steps share: look at the index, and commit
    when it holds staged changes. *)
Lemma emits_commit_if_modified (cwd : string) (rest : list string) :
  emits (modified ← _ModifiedFilesInIndex cwd;
         if (modified : bool)
         then _GetCommandStdout ("git" :: "commit" :: rest) cwd false;; mret tt
         else mret tt) guarded.
Proof.
  intros st. unfold _ModifiedFilesInIndex. rewrite !run_bind, run_command.
  destruct (popen ["git"; "status"; "--porcelain"] cwd (world st))
    as [[[[rc out] err]|e|] w] eqn:Hp.
  - destruct (Z.eqb_spec rc 0) as [->|Hrc]; cbn [orb].
    + cbn [mret M_ret]. destruct (search_staged out) eqn:Hs.
      * rewrite run_bind, run_command. cbn [world trace webview_licenses].
        destruct (popen ("git" :: "commit" :: rest) cwd w) as [[[[rc' out'] err']|e'|] w'].
        -- destruct ((rc' =? 0) || false)%bool; cbn [snd trace mret M_ret];
             eexists; (split; [rewrite <- ?app_assoc; reflexivity|]);
             unfold guarded; cbn; rewrite Hs; cbn; now rewrite String.eqb_refl.
        -- cbn [snd trace]. eexists. split; [rewrite <- ?app_assoc; reflexivity|].
           unfold guarded; cbn; rewrite Hs; cbn; now rewrite String.eqb_refl.
        -- cbn [snd trace]. eexists. split; [rewrite <- ?app_assoc; reflexivity|].
           unfold guarded; cbn; rewrite Hs; cbn; now rewrite String.eqb_refl.
      * cbn [snd trace]. eexists. split; [reflexivity|].
        unfold guarded. cbn. now rewrite Hs.
    + cbn [snd trace]. eexists. split; [rewrite <- ?app_assoc; reflexivity|].
      unfold guarded. destruct rc; [contradiction| reflexivity..].
  - cbn [snd trace]. eexists. split; [reflexivity | reflexivity].
  - cbn [snd trace]. eexists. split; [reflexivity | reflexivity].
Qed.

End Traces.

Section Steps.

Context {World : Type} `{RT : Runtime World}.

Lemma emits_ask {A : Type} (f : World -> result A * World)
    (log : result A -> option event) :
  (forall r, forallb neutral (option_list (log r)) = true) ->
  emits (ask f log) guarded.
Proof.
  intros Hn st. unfold ask. destruct (f (world st)) as [r w]. cbn [snd trace].
  exists (option_list (log r)). split; [reflexivity | now apply neutral_guarded].
Qed.

Lemma exclude_incompatible_guarded (items : list (string * list string)) :
  emits (exclude_incompatible items) guarded.
Proof.
  induction items as [|[path exclude_list] items IH]; cbn [exclude_incompatible].
  - now apply emits_nothing.
  - apply emits_bind; [apply emits_print|]. intros _.
    apply emits_bind; [apply emits_command; intros r; reflexivity|]. intros _.
    eapply emits_ext; [intros st; apply bind_assoc_run|].
    apply emits_bind; [apply emits_commit_if_modified | intros _; exact IH].
Qed.

Lemma remove_makefiles_guarded (paths : list string) :
  emits (remove_makefiles paths) guarded.
Proof.
  induction paths as [|path paths IH]; cbn [remove_makefiles].
  - now apply emits_nothing.
  - apply emits_bind; [apply emits_command; intros r; reflexivity | intros _; exact IH].
Qed.

Lemma add_makefiles_guarded (svn_revision : string) (paths : list string) :
  emits (add_makefiles svn_revision paths) guarded.
Proof.
  induction paths as [|path paths IH]; cbn [add_makefiles].
  - now apply emits_nothing.
  - do 4 (apply emits_bind; [apply emits_command; intros r; reflexivity|]; intros _).
    eapply emits_ext; [intros st; apply bind_assoc_run|].
    apply emits_bind; [apply emits_commit_if_modified | intros _; exact IH].
Qed.

Lemma GenerateMakefiles_guarded (svn_revision : string) :
  emits (_GenerateMakefiles svn_revision) guarded.
Proof.
  unfold _GenerateMakefiles.
  apply emits_bind; [apply emits_print|]. intros _.
  apply emits_bind; [apply remove_makefiles_guarded|]. intros _.
  apply emits_bind; [apply emits_command; intros r; reflexivity|]. intros _.
  apply add_makefiles_guarded.
Qed.

Lemma GenerateNoticeFile_guarded (svn_revision : string) :
  emits (_GenerateNoticeFile svn_revision) guarded.
Proof.
  unfold _GenerateNoticeFile.
  apply emits_bind; [apply emits_print|]. intros _.
  apply emits_bind.
  { apply emits_nothing. intros st. destruct (webview_licenses st); [|reflexivity].
    unfold ask. destruct (GenerateNoticeFile (world st)). cbn. apply app_nil_r. }
  intros contents.
  apply emits_bind; [apply emits_ask; intros r; reflexivity|]. intros _.
  apply emits_bind; [apply emits_command; intros r; reflexivity|]. intros _.
  apply emits_commit_if_modified.
Qed.

(** C10. In the events of the exclusion pass, of the NOTICE step and of
    the makefile step, every [git commit] comes directly after a
    successful [git status --porcelain] in the same directory whose
    output has a line starting with one of [M], [A], [D], [R], [C]; so
    a step whose status reports show no such line issues no commit. *)
Theorem C10_commits_only_on_staged_changes :
  (forall (items : list (string * list string)) (st : state World),
     exists delta : list event,
       trace (snd (exclude_incompatible items st)) = (trace st ++ delta)%list /\
       commits_guarded delta = true /\
       (Forall (fun e => staged_report e = None) delta ->
        Forall (fun e => is_commit e = false) delta)) /\
  (forall (svn_revision : string) (st : state World),
     exists delta : list event,
       trace (snd (_GenerateNoticeFile svn_revision st)) = (trace st ++ delta)%list /\
       commits_guarded delta = true /\
       (Forall (fun e => staged_report e = None) delta ->
        Forall (fun e => is_commit e = false) delta)) /\
  (forall (svn_revision : string) (st : state World),
     exists delta : list event,
       trace (snd (_GenerateMakefiles svn_revision st)) = (trace st ++ delta)%list /\
       commits_guarded delta = true /\
       (Forall (fun e => staged_report e = None) delta ->
        Forall (fun e => is_commit e = false) delta)).
Proof.
  repeat split.
  - intros items st. destruct (exclude_incompatible_guarded items st) as (d & E & G).
    exists d. auto using commits_guarded_no_report.
  - intros rev st. destruct (GenerateNoticeFile_guarded rev st) as (d & E & G).
    exists d. auto using commits_guarded_no_report.
  - intros rev st. destruct (GenerateMakefiles_guarded rev st) as (d & E & G).
    exists d. auto using commits_guarded_no_report.
Qed.

End Steps.

(** ** The snapshot driver and the entry point *)

Section Driver.

Context {World : Type} `{RT : Runtime World}.

(** [_Snapshot] returns [None] whenever it returns. *)
Lemma Snapshot_returns_None (fuel : nat) (git_url git_branch : string)
    (revision : option string) (st st' : state World) (v : pyval) :
  _Snapshot fuel git_url git_branch revision st = (Ok v, st') -> v = PNone.
Proof.
  unfold _Snapshot. rewrite run_bind.
  destruct (_GetSVNRevisionAndSHA1 git_url git_branch revision st)
    as [[[rev sha]|e|] st1]; try discriminate.
  rewrite run_bind.
  destruct (_GetCommandStdout _ _ _ st1) as [[new_commits|e|] st2]; try discriminate.
  destruct (negb (truthy (PStr new_commits))).
  - rewrite run_bind. cbn [print emit]. rewrite run_ret. congruence.
  - rewrite run_bind. cbn [print emit]. rewrite run_bind.
    destruct (_MergeProjects _ _ _ _ _ _) as [[b|e|] st3]; try discriminate.
    rewrite run_bind.
    destruct (_GenerateNoticeFile _ _) as [[[]|e|] st4]; try discriminate.
    rewrite run_bind.
    destruct (_GenerateMakefiles _ _) as [[[]|e|] st5]; try discriminate.
    rewrite run_ret. congruence.
Qed.

(** C1, what the script does. With no positional argument and the
    marker [ANDROID_BUILD_TOP] in the environment, [main] returns 1
    when the snapshot completes without an error; and [main] returns
    nothing but 1, so the exit status 0 of a success is never reached. *)
Theorem C1_successful_snapshot_exits_1
    (fuel : nat) (argv : list string) (environ : gmap string string)
    (opts : options) (st st' : state World) (v : pyval) :
  parse_args default_options argv = Ok (opts, []) ->
  is_Some (environ !! "ANDROID_BUILD_TOP") ->
  _Snapshot fuel (git_url opts) (git_branch opts) (svn_revision opts) st = (Ok v, st') ->
  main fuel argv environ st = (Ok 1, st') /\
  exit_code (fst (main fuel argv environ st)) = Some 1 /\
  (forall (argv' : list string) (environ' : gmap string string) (st0 : state World),
     fst (main fuel argv' environ' st0) <> Ok 0).
Proof.
  intros Hargs Henv Hsnap.
  assert (Hmain : main fuel argv environ st = (Ok 1, st')).
  { unfold main. rewrite run_bind. unfold lift. rewrite Hargs.
    rewrite bool_decide_eq_true_2 by assumption. cbn [negb].
    rewrite (run_bind_ok _ _ _ _ _ Hsnap).
    rewrite (Snapshot_returns_None _ _ _ _ _ _ _ Hsnap). reflexivity. }
  split; [exact Hmain|]. split; [now rewrite Hmain|].
  intros argv' environ' st0. unfold main. rewrite run_bind. unfold lift.
  destruct (parse_args default_options argv') as [[opts' args]|e|]; try discriminate.
  destruct args; [|discriminate].
  destruct (negb _); [discriminate|].
  rewrite run_bind.
  destruct (_Snapshot _ _ _ _ st0) as [[v'|e|] st1] eqn:Hs; try discriminate.
  rewrite (Snapshot_returns_None _ _ _ _ _ _ _ Hs). discriminate.
Qed.

(** C5, what the script does. When the target commit brings no history
    beyond the local head, that is when [git rev-list -1 HEAD..sha1]
    prints nothing, [_Snapshot] logs that there is nothing to merge and
    returns [None] with no further command, so without a commit; [main]
    then takes that [None] for a failure and returns 1. *)
Theorem C5_unchanged_upstream_is_a_no_op
    (fuel : nat) (url branch : string) (revision : option string)
    (st st1 : state World) (rev root_sha1 err : string) (w2 : World) :
  _GetSVNRevisionAndSHA1 url branch revision st =
    (Ok (rev, root_sha1), st1) ->
  popen ["git"; "rev-list"; "-1"; "HEAD.." ++ root_sha1] REPOSITORY_ROOT (world st1) =
    (Ok (0, "", err), w2) ->
  _Snapshot fuel url branch revision st =
    (Ok PNone,
     State w2
       (trace st1 ++
        [ECmd ["git"; "rev-list"; "-1"; "HEAD.." ++ root_sha1] REPOSITORY_ROOT
              (Ok (0, "", err));
         EStdout ("No new commits to merge from " ++ url ++ " branch " ++
                  branch ++ " at r" ++ rev ++ " (" ++ root_sha1 ++ ")")])
       (webview_licenses st1)) /\
  (forall (argv : list string) (environ : gmap string string),
     parse_args default_options argv = Ok (Options url branch revision, []) ->
     is_Some (environ !! "ANDROID_BUILD_TOP") ->
     fst (main fuel argv environ st) = Ok 1).
Proof.
  intros Hrev Hlist.
  assert (Hsnap : _Snapshot fuel url branch revision st =
    (Ok PNone,
     State w2
       (trace st1 ++
        [ECmd ["git"; "rev-list"; "-1"; "HEAD.." ++ root_sha1] REPOSITORY_ROOT
              (Ok (0, "", err));
         EStdout ("No new commits to merge from " ++ url ++ " branch " ++
                  branch ++ " at r" ++ rev ++ " (" ++ root_sha1 ++ ")")])
       (webview_licenses st1))).
  { unfold _Snapshot. rewrite (run_bind_ok _ _ _ _ _ Hrev).
    rewrite run_bind, (run_command_ok _ _ _ _ _ _ _ Hlist).
    cbn [truthy String.eqb negb]. rewrite run_bind.
    cbn [print emit mret M_ret world trace webview_licenses].
    now rewrite <- app_assoc. }
  split; [exact Hsnap|].
  intros argv environ Hargs Henv. unfold main. rewrite run_bind. unfold lift.
  rewrite Hargs. rewrite bool_decide_eq_true_2 by assumption. cbn [negb].
  cbn [git_url git_branch svn_revision]. now rewrite run_bind, Hsnap.
Qed.

End Driver.

Lemma C1_successful_snapshot_exits_1_witness :
  fst (main 1 [] {[ "ANDROID_BUILD_TOP" := "/android" ]}
         (Scripted.start
            [(0, "", "");
             (0, "0123abc" ++ nl ++ "git-svn-id: svn://svn.example/trunk@1234 uuid", "");
             (0, "", "")] [])) = Ok 1.
Proof.
  pose proof (C1_successful_snapshot_exits_1 1 [] {[ "ANDROID_BUILD_TOP" := "/android" ]}
    default_options
    (Scripted.start
       [(0, "", "");
        (0, "0123abc" ++ nl ++ "git-svn-id: svn://svn.example/trunk@1234 uuid", "");
        (0, "", "")] [])
    (snd (_Snapshot 1 "http://git.chromium.org/chromium/src.git" "git-svn" None
            (Scripted.start
               [(0, "", "");
                (0, "0123abc" ++ nl ++ "git-svn-id: svn://svn.example/trunk@1234 uuid", "");
                (0, "", "")] [])))
    PNone) as H.
  destruct H as [H _];
    [reflexivity | rewrite lookup_singleton_eq; eauto | vm_compute; reflexivity |].
  rewrite H. reflexivity.
Defined.

Lemma C5_unchanged_upstream_is_a_no_op_witness :
  fst (_Snapshot 1 "http://git.chromium.org/chromium/src.git" "git-svn" (Some "1234")
         (Scripted.start [(0, "", ""); (0, "0123abc" ++ nl, ""); (0, "", "")] [])) =
  Ok PNone.
Proof.
  pose proof (C5_unchanged_upstream_is_a_no_op 1
    "http://git.chromium.org/chromium/src.git" "git-svn" (Some "1234")
    (Scripted.start [(0, "", ""); (0, "0123abc" ++ nl, ""); (0, "", "")] [])
    (snd (_GetSVNRevisionAndSHA1 "http://git.chromium.org/chromium/src.git" "git-svn"
            (Some "1234")
            (Scripted.start [(0, "", ""); (0, "0123abc" ++ nl, ""); (0, "", "")] [])))
    "1234" "0123abc" "" (Scripted.World [] [] [] [] [])) as H.
  destruct H as [H _]; [vm_compute; reflexivity | vm_compute; reflexivity |].
  rewrite H. reflexivity.
Defined.

(** * Further properties of the script *)

(** ** Entries of the manifest *)

Lemma contains_char_app (c : ascii) (u v : string) :
  contains_char c (u ++ v) = (contains_char c u || contains_char c v)%bool.
Proof.
  induction u as [|a u IH]; simpl; [reflexivity|].
  rewrite IH. now rewrite orb_assoc.
Qed.

Lemma partition_at_none (c : ascii) (s : string) :
  partition_at c s = None <-> contains_char c s = false.
Proof.
  induction s as [|a s IH]; simpl; [tauto|].
  destruct (Ascii.eqb a c); simpl.
  - split; discriminate.
  - destruct (partition_at c s) as [[u r]|].
    + split; [discriminate|]. intros H. apply IH in H. discriminate.
    + split; [intros _; now apply IH | reflexivity].
Qed.

Lemma until_lf_no_lf (s : string) : contains_char LF (until_lf s) = false.
Proof.
  induction s as [|a s IH]; simpl; [reflexivity|].
  destruct (Ascii.eqb a LF) eqn:E; simpl; [reflexivity|]. now rewrite E.
Qed.

(** X1. An entry that is a string fails to split, with the
    [AttributeError] of [match.group] on [None], exactly when its first
    line holds no [@]; an entry that is true but not a string makes
    [re.match] raise [TypeError]. *)
Theorem X1_split_entry_errors :
  (forall s : string,
     split_entry (PStr s) = Raise AttributeError <->
     contains_char at_sign (until_lf s) = false) /\
  (forall v : pyval, (forall s, v <> PStr s) -> split_entry v = Raise TypeError).
Proof.
  split.
  - intros s. unfold split_entry, re_match_url_sha1.
    rewrite <- partition_at_none.
    destruct (partition_at at_sign (until_lf s)) as [[u r]|]; split;
      congruence || discriminate.
  - intros v Hv. destruct v; try reflexivity. now destruct (Hv s).
Qed.

(** X2. Whenever an entry splits, the url and the revision joined by [@]
    are the first line of the entry, the url holds neither [@] nor line
    feed, and the revision holds no line feed. *)
Theorem X2_split_entry_shape (s : string) (info : project_info) :
  split_entry (PStr s) = Ok info ->
  url info ++ "@" ++ sha1 info = until_lf s /\
  contains_char at_sign (url info) = false /\
  contains_char LF (url info) = false /\
  contains_char LF (sha1 info) = false.
Proof.
  unfold split_entry, re_match_url_sha1.
  destruct (partition_at at_sign (until_lf s)) as [[u r]|] eqn:Hp; [|discriminate].
  intros H. injection H as <-. cbn [url sha1].
  apply partition_at_inv in Hp as [Hs Hu].
  pose proof (until_lf_no_lf s) as Hlf. rewrite Hs in Hlf.
  rewrite contains_char_app in Hlf. apply orb_false_iff in Hlf as [Hlu Hlr].
  cbn [contains_char] in Hlr. apply orb_false_iff in Hlr as [_ Hlr].
  repeat split; [now rewrite Hs | assumption..].
Qed.

Lemma X2_split_entry_shape_witness :
  url (ProjectInfo "https://u/icu" "abc123") ++ "@" ++
  sha1 (ProjectInfo "https://u/icu" "abc123") =
  until_lf ("https://u/icu@abc123" ++ nl ++ "second line").
Proof.
  apply (X2_split_entry_shape ("https://u/icu@abc123" ++ nl ++ "second line")
           (ProjectInfo "https://u/icu" "abc123")).
  reflexivity.
Defined.

(** ** Status reports *)

Lemma startswith_inv (p l : string) :
  startswith p l = true -> l = p ++ drop_str (String.length p) l.
Proof.
  unfold startswith. revert l. induction p as [|a p IH]; intros l H; [reflexivity|].
  destruct l as [|b l]; [discriminate|]. cbn in H.
  destruct (ascii_dec a b) as [->|]; [|discriminate].
  change (String b l = String b (p ++ drop_str (String.length p) l)).
  f_equal. now apply IH.
Qed.

Lemma startswith_app (p r : string) : startswith p (p ++ r) = true.
Proof.
  unfold startswith. induction p as [|a p IH]; [now destruct r|].
  change (String a p ++ r) with (String a (p ++ r)). cbn [String.prefix].
  destruct (ascii_dec a a); [exact IH | contradiction].
Qed.

Lemma drop_str_app (p r : string) : drop_str (String.length p) (p ++ r) = r.
Proof. induction p as [|a p IH]; [reflexivity | exact IH]. Qed.

Lemma deleted_by_us_line_inv (l f : string) :
  deleted_by_us_line l = Some f ->
  f <> "" /\ (l = "DD " ++ f \/ l = "DU " ++ f).
Proof.
  unfold deleted_by_us_line.
  destruct (startswith "DD " l) eqn:HDD; cbn [orb].
  - apply startswith_inv in HDD. cbn [String.length] in HDD.
    destruct (drop_str 3 l) as [|a r]; [discriminate|].
    intros H. injection H as <-. split; [discriminate | now left].
  - destruct (startswith "DU " l) eqn:HDU; [|discriminate].
    apply startswith_inv in HDU. cbn [String.length] in HDU.
    destruct (drop_str 3 l) as [|a r]; [discriminate|].
    intros H. injection H as <-. split; [discriminate | now right].
Qed.

Lemma conflict_line_deleted (code f : string) :
  code = "DD" \/ code = "DU" ->
  f <> "" ->
  conflict_line (code ++ " " ++ f) = Some (code ++ " " ++ f) /\
  deleted_by_us_line (code ++ " " ++ f) = Some f.
Proof.
  intros [-> | ->] Hf; (destruct f as [|a r]; [contradiction|]); split; reflexivity.
Qed.

(** The files read off the [DD] and [DU] lines are those of the conflict
    entries [DD] and [DU]. *)
Lemma deleted_by_us_iff_conflict_entries (status f : string) :
  f ∈ findall_deleted_by_us status <->
  ("DD " ++ f) ∈ findall_conflicts status \/ ("DU " ++ f) ∈ findall_conflicts status.
Proof.
  unfold findall_deleted_by_us, findall_conflicts.
  rewrite !list_elem_of_omap. split.
  - intros (l & Hl & Hd). apply deleted_by_us_line_inv in Hd as [Hf [-> | ->]].
    + left. exists ("DD " ++ f). split; [assumption|].
      now apply (conflict_line_deleted "DD" f); [left|].
    + right. exists ("DU " ++ f). split; [assumption|].
      now apply (conflict_line_deleted "DU" f); [right|].
  - intros [(l & Hl & Hc) | (l & Hl & Hc)];
      apply conflict_line_same in Hc as Hsame; subst l.
    + exists ("DD " ++ f). split; [assumption|].
      assert (Hf : f <> "") by (intros ->; discriminate Hc).
      now apply (conflict_line_deleted "DD" f); [left|].
    + exists ("DU " ++ f). split; [assumption|].
      assert (Hf : f <> "") by (intros ->; discriminate Hc).
      now apply (conflict_line_deleted "DU" f); [right|].
Qed.

Lemma lines_from_app (cur a b : string) :
  lines_from cur (a ++ String LF b) = (lines_from cur a ++ lines_from "" b)%list.
Proof.
  revert cur. induction a as [|c a IH]; intros cur.
  - change ("" ++ String LF b) with (String LF b). cbn [lines_from].
    rewrite Ascii.eqb_refl. reflexivity.
  - change (String c a ++ String LF b) with (String c (a ++ String LF b)).
    cbn [lines_from]. destruct (Ascii.eqb c LF).
    + rewrite IH. reflexivity.
    + apply IH.
Qed.

Lemma lines_from_one_line (cur l : string) :
  contains_char LF l = false -> lines_from cur l = [cur ++ l].
Proof.
  revert cur. induction l as [|c l IH]; intros cur H.
  - cbn [lines_from]. f_equal. clear H. induction cur as [|a cur IHc]; [reflexivity|].
    change (String a cur ++ "") with (String a (cur ++ "")). now rewrite <- IHc.
  - cbn [contains_char] in H. apply orb_false_iff in H as [Hc Hl].
    cbn [lines_from]. rewrite Hc, (IH _ Hl). f_equal.
    clear. induction cur as [|a cur IHc]; [reflexivity|].
    change (String a cur ++ String c "") with (String a (cur ++ String c "")).
    change (String a (cur ++ String c "") ++ l)
      with (String a ((cur ++ String c "") ++ l)).
    rewrite IHc. reflexivity.
Qed.

(** X4. [_ModifiedFilesInIndex] reads the status report line by line: a
    report made of two reports is staged when one of the two is, an empty
    report is not staged, and a single line counts exactly when its first
    byte is one of [M], [A], [D], [R], [C]; so the lines of untracked files
    and of changes left in the working tree only never count. *)
Theorem X4_search_staged_by_line :
  (forall a b : string,
     search_staged (a ++ nl ++ b) = (search_staged a || search_staged b)%bool) /\
  search_staged "" = false /\
  (forall l : string,
     contains_char LF l = false ->
     search_staged l =
       match l with
       | String c _ => contains_char c "MADRC"
       | EmptyString => false
       end) /\
  (forall l rest : string,
     contains_char LF l = false ->
     search_staged ("?? " ++ l ++ nl ++ rest) = search_staged rest /\
     search_staged (" M " ++ l ++ nl ++ rest) = search_staged rest).
Proof.
  assert (Happ : forall a b : string,
            search_staged (a ++ nl ++ b) = (search_staged a || search_staged b)%bool).
  { intros a b. unfold search_staged, splitlines.
    change (a ++ nl ++ b) with (a ++ String LF b).
    now rewrite lines_from_app, existsb_app. }
  assert (Hone : forall l : string,
            contains_char LF l = false ->
            search_staged l =
              match l with
              | String c _ => contains_char c "MADRC"
              | EmptyString => false
              end).
  { intros l Hl. unfold search_staged, splitlines.
    rewrite lines_from_one_line by assumption. change ("" ++ l) with l.
    cbn [existsb]. rewrite orb_false_r. destruct l as [|c l]; [reflexivity|].
    cbn [staged_line list_ascii_of_string existsb contains_char].
    now rewrite !(Ascii.eqb_sym c). }
  split; [exact Happ|]. split; [reflexivity|]. split; [exact Hone|].
  intros l rest Hl. split.
  - change ("?? " ++ l ++ nl ++ rest) with (String "?" (String "?" (String " " l)) ++ nl ++ rest).
    rewrite Happ, Hone; [reflexivity|]. cbn [contains_char]. now rewrite Hl.
  - change (" M " ++ l ++ nl ++ rest) with (String " " (String "M" (String " " l)) ++ nl ++ rest).
    rewrite Happ, Hone; [reflexivity|]. cbn [contains_char]. now rewrite Hl.
Qed.

(** ** The target revision *)








Section Revision.

Context {World : Type} `{RT : Runtime World}.



End Revision.



(** ** The resolver as a whole *)

Section ResolverResult.

Context {World : Type} `{RT : Runtime World}.

Lemma merge_info_loop_result (order : list pyval) (projects : list string) :
  Forall (fun p => exists i, project_merge_info order p = Ok i) projects ->
  forall (result : gmap string project_info) (st : state World),
  exists m : gmap string project_info,
    merge_info_loop order projects result st =
      (Ok m, State (world st) (trace st ++ omap (resolved_line order) projects)
                   (webview_licenses st)) /\
    (forall p i, p ∈ projects -> project_merge_info order p = Ok i -> m !! p = Some i) /\
    (forall p, p ∉ projects -> m !! p = result !! p).
Proof.
  induction 1 as [|q projects [iq Hq] _ IH]; intros result st.
  - exists result. cbn [merge_info_loop omap list_omap]. rewrite run_ret, app_nil_r.
    split; [now destruct st|]. split; [|reflexivity].
    intros p i Hp. now apply not_elem_of_nil in Hp.
  - cbn [merge_info_loop]. rewrite run_bind. unfold lift. rewrite Hq.
    rewrite run_bind. cbn [print emit].
    destruct (IH (<[q := iq]> result)
                 (State (world st)
                    (trace st ++
                     [EStdout ("  Got URL " ++ url iq ++ " and SHA1 " ++ sha1 iq ++
                               " for project " ++ q)])
                    (webview_licenses st))) as (m & Hrun & Hin & Hout).
    exists m. split; [|split].
    + rewrite Hrun. cbn [world trace webview_licenses omap list_omap].
      unfold resolved_line at 2. rewrite Hq. now rewrite <- app_assoc.
    + intros p i Hp Hi. destruct (decide (p ∈ projects)) as [Hrest|Hrest].
      * now apply Hin.
      * apply elem_of_cons in Hp as [->|Hp]; [|contradiction].
        rewrite (Hout _ Hrest), lookup_insert_eq. congruence.
    + intros p Hp. apply not_elem_of_cons in Hp as [Hne Hrest].
      rewrite (Hout _ Hrest). now apply lookup_insert_ne.
Qed.

(** X7. When the three sources are there and every requested project
    resolves, [_GetThirdPartyProjectMergeInfo] returns a dictionary whose
    keys are exactly the requested projects, each with the url and
    revision its entry splits into; it prints one line per project, in
    the order of the list, and touches nothing else. *)
Theorem X7_resolver_result
    (deps_vars : gmap string pyval) (order : list pyval) (projects : list string)
    (st : state World) :
  deps_fallback_order deps_vars = Ok order ->
  Forall (fun p => exists i, project_merge_info order p = Ok i) projects ->
  exists m : gmap string project_info,
    _GetThirdPartyProjectMergeInfo projects deps_vars st =
      (Ok m, State (world st) (trace st ++ omap (resolved_line order) projects)
                   (webview_licenses st)) /\
    (forall p i, p ∈ projects -> project_merge_info order p = Ok i -> m !! p = Some i) /\
    (forall p, p ∉ projects -> m !! p = None).
Proof.
  intros Horder Hall. unfold _GetThirdPartyProjectMergeInfo.
  rewrite run_bind. unfold lift. rewrite Horder.
  destruct (merge_info_loop_result order projects Hall ∅ st) as (m & Hrun & Hin & Hout).
  exists m. split; [exact Hrun|]. split; [exact Hin|].
  intros p Hp. now rewrite (Hout _ Hp), lookup_empty.
Qed.

(** X8. A manifest that lacks [deps], [deps_os], or the [unix] or
    [android] section of [deps_os] cannot be resolved, whatever the list
    of projects, the empty list included: the resolver raises [KeyError]
    for the first of these that is missing, before it looks at any
    project. *)
Theorem X8_missing_sections
    (deps_vars : gmap string pyval) (projects : list string) (st : state World) :
  (deps_vars !! "deps" = None ->
   _GetThirdPartyProjectMergeInfo projects deps_vars st = (Raise (KeyError "deps"), st)) /\
  (forall deps,
     deps_vars !! "deps" = Some deps -> deps_vars !! "deps_os" = None ->
     _GetThirdPartyProjectMergeInfo projects deps_vars st =
       (Raise (KeyError "deps_os"), st)) /\
  (forall deps deps_os,
     deps_vars !! "deps" = Some deps -> deps_vars !! "deps_os" = Some (PDict deps_os) ->
     deps_os !! "unix" = None ->
     _GetThirdPartyProjectMergeInfo projects deps_vars st = (Raise (KeyError "unix"), st)) /\
  (forall deps deps_os unix,
     deps_vars !! "deps" = Some deps -> deps_vars !! "deps_os" = Some (PDict deps_os) ->
     deps_os !! "unix" = Some unix -> deps_os !! "android" = None ->
     _GetThirdPartyProjectMergeInfo projects deps_vars st =
       (Raise (KeyError "android"), st)).
Proof.
  unfold _GetThirdPartyProjectMergeInfo, deps_fallback_order, getitem.
  repeat split.
  - intros H. rewrite run_bind. unfold lift. now rewrite H.
  - intros deps H1 H2. rewrite run_bind. unfold lift. now rewrite H1, H2.
  - intros deps deps_os H1 H2 H3. rewrite run_bind. unfold lift. rewrite H1, H2.
    cbn. unfold getitem. now rewrite H3.
  - intros deps deps_os unix H1 H2 H3 H4. rewrite run_bind. unfold lift. rewrite H1, H2.
    cbn. unfold getitem. rewrite H3. cbn. now rewrite H4.
Qed.

End ResolverResult.

Lemma X7_resolver_result_witness :
  exists m : gmap string project_info,
    fst (_GetThirdPartyProjectMergeInfo ["v8"; "third_party/icu"]
           {[ "deps" := PDict {[ "src/v8" := PStr "https://u/v8@abc123" ]};
              "deps_os" := PDict {[ "unix" := PDict ∅;
                                    "android" := PDict {[ "src/third_party/icu" :=
                                                            PStr "https://u/icu@fff" ]} ]} ]}
           (Scripted.start [] [])) = Ok m /\
    m !! "third_party/icu" = Some (ProjectInfo "https://u/icu" "fff").
Proof.
  destruct (X7_resolver_result
              {[ "deps" := PDict {[ "src/v8" := PStr "https://u/v8@abc123" ]};
                 "deps_os" := PDict {[ "unix" := PDict ∅;
                                       "android" := PDict {[ "src/third_party/icu" :=
                                                               PStr "https://u/icu@fff" ]} ]} ]}
              [PDict {[ "src/v8" := PStr "https://u/v8@abc123" ]}; PDict ∅;
               PDict {[ "src/third_party/icu" := PStr "https://u/icu@fff" ]}]
              ["v8"; "third_party/icu"] (Scripted.start [] []))
    as (m & Hrun & Hin & _).
  - reflexivity.
  - apply Forall_cons_2.
    + exists (ProjectInfo "https://u/v8" "abc123"). reflexivity.
    + apply Forall_cons_2; [|apply Forall_nil_2].
      exists (ProjectInfo "https://u/icu" "fff"). reflexivity.
  - exists m. split; [rewrite Hrun; reflexivity|].
    apply Hin.
    + apply elem_of_cons. right. apply elem_of_cons. left. reflexivity.
    + reflexivity.
Defined.

(** ** The conflict step *)

Section ConflictStep.

Context {World : Type} `{RT : Runtime World}.

Lemma quiet_app (a b : list event) : quiet a -> quiet b -> quiet (a ++ b).
Proof. unfold quiet. intros. now apply Forall_app. Qed.

(** What one command leaves in the trace: its own event, then, when it
    fails, the two lines on the error stream; it returns the standard
    output of a process that exited with 0 unless errors are ignored. *)
Lemma command_yields (args : list string) (cwd : string) (ignore_errors : bool) :
  yields (_GetCommandStdout args cwd ignore_errors)
    (fun r d =>
       exists o extra,
         d = ECmd args cwd o :: extra /\
         quiet extra /\
         forall out, r = Ok out ->
           extra = [] /\
           exists rc err, o = Ok (rc, out, err) /\ (ignore_errors = false -> rc = 0)).
Proof.
  intros st. rewrite run_command.
  destruct (popen args cwd (world st)) as [[[[rc out] err]|e|] w].
  - destruct (Z.eqb_spec rc 0) as [->|Hrc]; cbn [orb].
    + eexists. split; [reflexivity|]. exists (Ok (0, out, err)), []. cbn [fst].
      split; [reflexivity|]. split; [constructor|].
      intros out' H. injection H as <-. split; [reflexivity|]. eauto.
    + destruct ignore_errors; cbn [fst snd trace].
      * eexists. split; [reflexivity|]. exists (Ok (rc, out, err)), [].
        split; [reflexivity|]. split; [constructor|].
        intros out' H. injection H as <-. split; [reflexivity|].
        exists rc, err. split; [reflexivity | discriminate].
      * eexists. split; [rewrite <- !app_assoc; reflexivity|].
        eexists _, _. split; [reflexivity|]. split; [repeat constructor | discriminate].
  - eexists. split; [reflexivity|]. exists (Raise e), [].
    split; [reflexivity|]. split; [constructor | discriminate].
  - eexists. split; [reflexivity|]. exists OutOfFuel, [].
    split; [reflexivity|]. split; [constructor | discriminate].
Qed.

(** The loop issues no commit, and when it ends with a message, the last
    thing it did was to read a status report without conflict entries. *)
Lemma resolve_conflicts_yields (fuel : nat) (cwd : string) :
  forall commit_message : string,
  yields (resolve_conflicts fuel commit_message cwd)
    (fun r d =>
       quiet d /\
       forall m, r = Ok m ->
         exists pre status err,
           d = (pre ++ [ECmd ["git"; "status"; "--porcelain"] cwd (Ok (0, status, err))])%list /\
           findall_conflicts status = []).
Proof.
  induction fuel as [|fuel IH]; intros commit_message st.
  - exists []. cbn [resolve_conflicts out_of_fuel snd fst]. rewrite app_nil_r.
    split; [reflexivity|]. split; [constructor | discriminate].
  - cbn [resolve_conflicts]. rewrite run_bind.
    destruct (command_yields ["git"; "status"; "--porcelain"] cwd false st)
      as (d1 & Ht1 & o & extra & -> & Hq & Hok).
    destruct (_GetCommandStdout _ _ _ st) as [[status|e|] st1]; cbn [fst snd] in *.
    + destruct (Hok _ eq_refl) as [-> (rc & err & -> & Hrc)]. rewrite (Hrc eq_refl) in *.
      destruct (findall_conflicts status) as [|c cs] eqn:Hc.
      * rewrite run_ret. cbn [fst snd]. eexists. split; [exact Ht1|].
        split; [repeat constructor|].
        intros m _. exists [], status, err. split; [reflexivity | exact Hc].
      * rewrite run_bind. unfold ask.
        destruct (raw_input _ (world st1)) as [[answer|e|] w2]; cbn [option_list].
        -- match goal with
           | |- context [resolve_conflicts fuel ?m cwd ?s] =>
               destruct (IH m s) as (d2 & Ht2 & Hq2 & Hok2)
           end.
           cbn [trace] in Ht2. eexists. split.
           { rewrite Ht2, Ht1, <- !app_assoc. reflexivity. }
           split.
           { apply Forall_cons; split; [reflexivity|].
             apply Forall_cons; split; [reflexivity | exact Hq2]. }
           intros m Hm. destruct (Hok2 m Hm) as (pre & s & e & Hd & Hs).
           eexists (_ :: _ :: pre), s, e. split; [rewrite Hd; reflexivity | exact Hs].
        -- cbn [fst snd trace]. eexists. split.
           { rewrite Ht1, <- !app_assoc. reflexivity. }
           split; [repeat constructor | discriminate].
        -- cbn [fst snd trace]. eexists. split.
           { rewrite Ht1, <- !app_assoc. reflexivity. }
           split; [repeat constructor | discriminate].
    + eexists. split; [exact Ht1|].
      split; [apply Forall_cons; split; [reflexivity | exact Hq] | discriminate].
    + eexists. split; [exact Ht1|].
      split; [apply Forall_cons; split; [reflexivity | exact Hq] | discriminate].
Qed.

Lemma emits_bind_closed {A B : Type} (P : list event -> Prop)
    (m : M World A) (k : A -> M World B) :
  (forall a b, P a -> P b -> P (a ++ b)%list) ->
  emits m P -> (forall a, emits (k a) P) -> emits (m ≫= k) P.
Proof.
  intros Happ Hm Hk st. rewrite run_bind. destruct (Hm st) as (d1 & E1 & G1).
  destruct (m st) as [[a|e|] st1]; cbn [snd] in *; [|eauto..].
  destruct (Hk a st1) as (d2 & E2 & G2). exists (d1 ++ d2)%list.
  split; [now rewrite E2, E1, app_assoc | now apply Happ].
Qed.

Lemma emits_quiet_ret {A : Type} (a : A) : emits (mret a : M World A) quiet.
Proof. intros st. exists []. rewrite run_ret, app_nil_r. split; [reflexivity | constructor]. Qed.

Lemma emits_quiet_print (line : string) : emits (print line : M World unit) quiet.
Proof. intros st. exists [EStdout line]. split; [reflexivity | repeat constructor]. Qed.

Lemma emits_quiet_command (args : list string) (cwd : string) (ignore_errors : bool) :
  (forall o, is_commit (ECmd args cwd o) = false) ->
  emits (_GetCommandStdout args cwd ignore_errors) quiet.
Proof.
  intros Hargs st.
  destruct (command_yields args cwd ignore_errors st) as (d & Ht & o & extra & -> & Hq & _).
  eexists. split; [exact Ht|]. apply Forall_cons. split; [apply Hargs | exact Hq].
Qed.

(** X9. The conflict step commits only on a clean report: in what it adds
    to the trace there is either no commit at all, and then the step did
    not return normally, or exactly one, which comes directly after a
    successful [git status --porcelain] of the same directory that shows
    no conflict entry. *)
Theorem X9_commit_follows_clean_status (fuel : nat) (commit_message cwd : string) :
  yields (_CheckNoConflictsAndCommitMerge fuel commit_message cwd)
    (fun r d =>
       (quiet d /\ r <> Ok tt) \/
       exists pre status err m outcome post,
         d = (pre ++
              ECmd ["git"; "status"; "--porcelain"] cwd (Ok (0, status, err)) ::
              ECmd ["git"; "commit"; "-m"; m] cwd outcome :: post)%list /\
         findall_conflicts status = [] /\ quiet pre /\ quiet post).
Proof.
  intros st. unfold _CheckNoConflictsAndCommitMerge. rewrite run_bind.
  destruct (command_yields ["git"; "status"; "--porcelain"] cwd false st)
    as (d1 & Ht1 & o1 & extra1 & -> & Hq1 & _).
  assert (Hd1 : quiet (ECmd ["git"; "status"; "--porcelain"] cwd o1 :: extra1)).
  { apply Forall_cons. split; [reflexivity | exact Hq1]. }
  destruct (_GetCommandStdout _ _ _ st) as [[status|e|] st1]; cbn [fst snd] in *;
    [| eexists; split; [exact Ht1|]; left; split; [exact Hd1 | discriminate]..].
  rewrite run_bind.
  assert (Hrm : emits
            (match findall_deleted_by_us status with
             | [] => mret tt
             | _ :: _ =>
                 print ("Keeping ours for the following locally deleted files." ++ nl ++
                        "  " ++ join (nl ++ "  ") (findall_deleted_by_us status));;
                 _GetCommandStdout (["git"; "rm"; "-rf"; "--ignore-unmatch"] ++
                                    findall_deleted_by_us status) cwd false;;
                 mret tt
             end : M World unit) quiet).
  { destruct (findall_deleted_by_us status) as [|f fs]; [apply emits_quiet_ret|].
    apply emits_bind_closed; [apply quiet_app | apply emits_quiet_print|]. intros _.
    apply emits_bind_closed; [apply quiet_app | |intros _; apply emits_quiet_ret].
    apply emits_quiet_command. reflexivity. }
  destruct (Hrm st1) as (d2 & Ht2 & Hq2).
  match goal with
  | |- context [match ?m st1 with _ => _ end] =>
      change m with
        (match findall_deleted_by_us status with
         | [] => mret tt
         | _ :: _ =>
             print ("Keeping ours for the following locally deleted files." ++ nl ++
                    "  " ++ join (nl ++ "  ") (findall_deleted_by_us status));;
             _GetCommandStdout (["git"; "rm"; "-rf"; "--ignore-unmatch"] ++
                                findall_deleted_by_us status) cwd false;;
             mret tt
         end : M World unit)
  end.
  destruct ((match findall_deleted_by_us status with
             | [] => mret tt
             | _ :: _ => _
             end : M World unit) st1) as [[[]|e|] st2]; cbn [fst snd] in *;
    [| eexists; split; [rewrite Ht2, Ht1, <- app_assoc; reflexivity|];
       left; split; [now apply quiet_app | discriminate]..].
  rewrite run_bind.
  destruct (resolve_conflicts_yields fuel cwd commit_message st2)
    as (d3 & Ht3 & Hq3 & Hok3).
  destruct (resolve_conflicts fuel commit_message cwd st2) as [[m|e|] st3];
    cbn [fst snd] in *;
    [| eexists; split; [rewrite Ht3, Ht2, Ht1, <- !app_assoc; reflexivity|];
       left; split; [now repeat apply quiet_app | discriminate]..].
  destruct (Hok3 m eq_refl) as (pre & s & err & Hd3 & Hs).
  rewrite run_bind.
  destruct (command_yields ["git"; "commit"; "-m"; m] cwd false st3)
    as (d4 & Ht4 & o4 & extra4 & -> & Hq4 & _).
  exists ((ECmd ["git"; "status"; "--porcelain"] cwd o1 :: extra1) ++ d2 ++ d3 ++
          ECmd ["git"; "commit"; "-m"; m] cwd o4 :: extra4)%list.
  split.
  - destruct (_GetCommandStdout _ _ _ st3) as [[out|e|] st4]; cbn [fst snd] in *;
      rewrite ?run_ret; cbn [snd]; rewrite Ht4, Ht3, Ht2, Ht1, <- !app_assoc; reflexivity.
  - right. exists ((ECmd ["git"; "status"; "--porcelain"] cwd o1 :: extra1) ++ d2 ++ pre)%list,
             s, err, m, o4, extra4.
    split; [rewrite Hd3, <- !app_assoc; reflexivity|].
    split; [exact Hs|]. split; [|exact Hq4].
    rewrite Hd3 in Hq3. apply Forall_app in Hq3 as [Hpre _].
    now repeat apply quiet_app.
Qed.

End ConflictStep.

Lemma message_after_blank (commit_message : string) (answers : list string) :
  Forall (fun a => a = "") answers -> message_after commit_message answers = commit_message.
Proof.
  induction 1 as [|a answers -> _ IH]; [reflexivity | exact IH].
Qed.

Lemma message_after_last (commit_message a : string) (before after : list string) :
  a <> "" -> Forall (fun a => a = "") after ->
  message_after commit_message (before ++ a :: after) = a.
Proof.
  intros Ha Hafter. revert commit_message.
  induction before as [|b before IH]; intros commit_message.
  - cbn [app message_after]. destruct a; [contradiction|].
    cbn [truthy String.eqb negb]. now apply message_after_blank.
  - cbn [app message_after]. apply IH.
Qed.

Section OperatorMessage.

Context {World : Type} `{RT : Runtime World}.

Lemma prompt_answers_app (a b : list event) :
  prompt_answers (a ++ b) = (prompt_answers a ++ prompt_answers b)%list.
Proof. apply omap_app. Qed.

Lemma silent_app (a b : list event) : silent a -> silent b -> silent (a ++ b).
Proof.
  intros [Hqa Hpa] [Hqb Hpb]. split; [now apply quiet_app|].
  now rewrite prompt_answers_app, Hpa, Hpb.
Qed.

Lemma quiet_no_commit (d : list event) (rest : list string) (cwd : string)
    (o : result (Z * string * string)) :
  quiet d -> ECmd ("git" :: "commit" :: rest) cwd o ∈ d -> False.
Proof.
  unfold quiet. rewrite Forall_forall. intros Hq Hin.
  specialize (Hq _ Hin). discriminate Hq.
Qed.

(** The events of one command: its own, and after a failure the two lines
    on the error stream. *)
Lemma command_trace (args : list string) (cwd : string) (ignore_errors : bool) :
  yields (_GetCommandStdout args cwd ignore_errors)
    (fun _ d => exists o extra, d = ECmd args cwd o :: extra /\ silent extra).
Proof.
  intros st. rewrite run_command.
  destruct (popen args cwd (world st)) as [[[[rc out] err]|e|] w].
  - destruct ((rc =? 0) || ignore_errors)%bool; cbn [snd trace].
    + eexists. split; [reflexivity|]. eexists _, []. repeat split. constructor.
    + eexists. split; [rewrite <- !app_assoc; reflexivity|]. eexists _, _.
      split; [reflexivity|]. split; [repeat constructor | reflexivity].
  - eexists. split; [reflexivity|]. eexists _, []. repeat split. constructor.
  - eexists. split; [reflexivity|]. eexists _, []. repeat split. constructor.
Qed.

Lemma emits_silent_command (args : list string) (cwd : string) (ignore_errors : bool) :
  (forall o, is_commit (ECmd args cwd o) = false) ->
  emits (_GetCommandStdout args cwd ignore_errors) silent.
Proof.
  intros Hargs st.
  destruct (command_trace args cwd ignore_errors st) as (d & Ht & o & extra & -> & Hq & Hp).
  eexists. split; [exact Ht|]. split.
  - apply Forall_cons. split; [apply Hargs | exact Hq].
  - exact Hp.
Qed.

Lemma emits_silent_ret {A : Type} (a : A) : emits (mret a : M World A) silent.
Proof.
  intros st. exists []. rewrite run_ret, app_nil_r.
  split; [reflexivity | split; [constructor | reflexivity]].
Qed.

Lemma emits_silent_print (line : string) : emits (print line : M World unit) silent.
Proof.
  intros st. exists [EStdout line].
  split; [reflexivity | split; [repeat constructor | reflexivity]].
Qed.

(** The message the loop ends with is the one in force after the answers
    it was given. *)
Lemma resolve_conflicts_message (fuel : nat) (cwd : string) :
  forall commit_message : string,
  yields (resolve_conflicts fuel commit_message cwd)
    (fun r d => forall m, r = Ok m -> m = message_after commit_message (prompt_answers d)).
Proof.
  induction fuel as [|fuel IH]; intros commit_message st.
  - exists []. cbn [resolve_conflicts out_of_fuel snd fst]. rewrite app_nil_r.
    split; [reflexivity | discriminate].
  - cbn [resolve_conflicts]. rewrite run_bind.
    destruct (command_trace ["git"; "status"; "--porcelain"] cwd false st)
      as (d1 & Ht1 & o & extra & -> & Hq & Hp).
    destruct (_GetCommandStdout _ _ _ st) as [[status|e|] st1]; cbn [fst snd] in *;
      [| eexists; split; [exact Ht1 | discriminate]..].
    destruct (findall_conflicts status) as [|c cs].
    + rewrite run_ret. cbn [fst snd]. eexists. split; [exact Ht1|].
      intros m H. injection H as <-.
      change (prompt_answers (ECmd ["git"; "status"; "--porcelain"] cwd o :: extra))
        with (prompt_answers extra). now rewrite Hp.
    + rewrite run_bind. unfold ask.
      destruct (raw_input _ (world st1)) as [[answer|e|] w2]; cbn [option_list];
        [| cbn [fst snd trace]; eexists;
           (split; [rewrite Ht1, <- !app_assoc; reflexivity | discriminate])..].
      match goal with
      | |- context [resolve_conflicts fuel ?m cwd ?s] =>
          destruct (IH m s) as (d2 & Ht2 & Hm2)
      end.
      cbn [trace] in Ht2.
      exists ((ECmd ["git"; "status"; "--porcelain"] cwd o :: extra) ++
              EPrompt (conflict_prompt (join nl (c :: cs)) commit_message) (Ok answer) ::
              d2)%list.
      split; [rewrite Ht2, Ht1, <- !app_assoc; reflexivity|].
      intros m Hm. rewrite (Hm2 m Hm), prompt_answers_app.
      change (prompt_answers (ECmd ["git"; "status"; "--porcelain"] cwd o :: extra))
        with (prompt_answers extra). rewrite Hp. reflexivity.
Qed.

(** X10. The message of the commit the conflict step makes is the last
    answer the operator gave that was not empty, and the default message
    when the operator was never asked or answered with nothing but
    [Enter]. *)
Theorem X10_commit_message_is_last_answer (fuel : nat) (commit_message cwd : string) :
  yields (_CheckNoConflictsAndCommitMerge fuel commit_message cwd)
    (fun _ d =>
       forall m cwd' o,
         ECmd ["git"; "commit"; "-m"; m] cwd' o ∈ d ->
         m = message_after commit_message (prompt_answers d)) /\
  (forall answers : list string,
     Forall (fun a => a = "") answers ->
     message_after commit_message answers = commit_message) /\
  (forall (a : string) (before after : list string),
     a <> "" -> Forall (fun a => a = "") after ->
     message_after commit_message (before ++ a :: after) = a).
Proof.
  split; [|split; [apply message_after_blank | intros; now apply message_after_last]].
  intros st. unfold _CheckNoConflictsAndCommitMerge. rewrite run_bind.
  destruct (emits_silent_command ["git"; "status"; "--porcelain"] cwd false
              ltac:(reflexivity) st) as (d1 & Ht1 & Hs1).
  destruct (_GetCommandStdout _ _ _ st) as [[status|e|] st1]; cbn [fst snd] in *;
    [| eexists; split; [exact Ht1|]; intros m cwd' o Hin;
       now destruct (quiet_no_commit _ _ _ _ (proj1 Hs1) Hin)..].
  rewrite run_bind.
  assert (Hrm : emits
            (match findall_deleted_by_us status with
             | [] => mret tt
             | _ :: _ =>
                 print ("Keeping ours for the following locally deleted files." ++ nl ++
                        "  " ++ join (nl ++ "  ") (findall_deleted_by_us status));;
                 _GetCommandStdout (["git"; "rm"; "-rf"; "--ignore-unmatch"] ++
                                    findall_deleted_by_us status) cwd false;;
                 mret tt
             end : M World unit) silent).
  { destruct (findall_deleted_by_us status) as [|f fs]; [apply emits_silent_ret|].
    apply emits_bind_closed; [apply silent_app | apply emits_silent_print|]. intros _.
    apply emits_bind_closed; [apply silent_app | |intros _; apply emits_silent_ret].
    apply emits_silent_command. reflexivity. }
  destruct (Hrm st1) as (d2 & Ht2 & Hs2).
  match goal with
  | |- context [match ?m st1 with _ => _ end] =>
      change m with
        (match findall_deleted_by_us status with
         | [] => mret tt
         | _ :: _ =>
             print ("Keeping ours for the following locally deleted files." ++ nl ++
                    "  " ++ join (nl ++ "  ") (findall_deleted_by_us status));;
             _GetCommandStdout (["git"; "rm"; "-rf"; "--ignore-unmatch"] ++
                                findall_deleted_by_us status) cwd false;;
             mret tt
         end : M World unit)
  end.
  destruct ((match findall_deleted_by_us status with
             | [] => mret tt
             | _ :: _ => _
             end : M World unit) st1) as [[[]|e|] st2]; cbn [fst snd] in *;
    [| eexists; split; [rewrite Ht2, Ht1, <- app_assoc; reflexivity|];
       intros m cwd' o Hin;
       now destruct (quiet_no_commit _ _ _ _ (proj1 (silent_app _ _ Hs1 Hs2)) Hin)..].
  rewrite run_bind.
  destruct (resolve_conflicts_yields fuel cwd commit_message st2)
    as (d3 & Ht3 & Hq3 & _).
  destruct (resolve_conflicts_message fuel cwd commit_message st2)
    as (d3' & Ht3' & Hm3).
  assert (d3' = d3) as -> by (rewrite Ht3 in Ht3'; now apply app_inv_head in Ht3').
  destruct (resolve_conflicts fuel commit_message cwd st2) as [[m3|e|] st3];
    cbn [fst snd] in *;
    [| eexists; split; [rewrite Ht3, Ht2, Ht1, <- !app_assoc; reflexivity|];
       intros m cwd' o Hin;
       now destruct (quiet_no_commit _ _ _ _
                       (quiet_app _ _ (proj1 Hs1) (quiet_app _ _ (proj1 Hs2) Hq3)) Hin)..].
  rewrite run_bind.
  destruct (command_trace ["git"; "commit"; "-m"; m3] cwd false st3)
    as (d4 & Ht4 & o4 & extra4 & -> & Hq4 & Hp4).
  exists (d1 ++ d2 ++ d3 ++ ECmd ["git"; "commit"; "-m"; m3] cwd o4 :: extra4)%list.
  split.
  - destruct (_GetCommandStdout _ _ _ st3) as [[out|e|] st4]; cbn [fst snd] in *;
      rewrite ?run_ret; cbn [snd]; rewrite Ht4, Ht3, Ht2, Ht1, <- !app_assoc; reflexivity.
  - intros m cwd' o Hin.
    rewrite !prompt_answers_app, (proj2 Hs1), (proj2 Hs2).
    change (prompt_answers (ECmd ["git"; "commit"; "-m"; m3] cwd o4 :: extra4))
      with (prompt_answers extra4).
    rewrite Hp4, app_nil_r. cbn [app].
    rewrite !elem_of_app, elem_of_cons in Hin.
    destruct Hin as [Hin | [Hin | [Hin | [Hin | Hin]]]].
    + now destruct (quiet_no_commit _ _ _ _ (proj1 Hs1) Hin).
    + now destruct (quiet_no_commit _ _ _ _ (proj1 Hs2) Hin).
    + now destruct (quiet_no_commit _ _ _ _ Hq3 Hin).
    + injection Hin as -> _ _. now apply Hm3.
    + now destruct (quiet_no_commit _ _ _ _ Hq4 Hin).
Qed.

End OperatorMessage.

(** ** How many commits a step makes *)

Lemma commits_in_app (a b : list event) :
  commits_in (a ++ b) = (commits_in a + commits_in b)%nat.
Proof.
  induction a as [|e a IH]; [reflexivity|]. cbn [app commits_in]. rewrite IH. lia.
Qed.

Lemma quiet_commits_in (d : list event) : quiet d -> commits_in d = O.
Proof.
  induction 1 as [|e d He _ IH]; [reflexivity|]. cbn [commits_in]. now rewrite He, IH.
Qed.

Section CommitCount.

Context {World : Type} `{RT : Runtime World}.

Lemma emits_at_most_bind {A B : Type} (n1 n2 : nat) (m : M World A) (k : A -> M World B) :
  emits m (at_most n1) -> (forall a, emits (k a) (at_most n2)) ->
  emits (m ≫= k) (at_most (n1 + n2)).
Proof.
  intros Hm Hk st. rewrite run_bind. destruct (Hm st) as (d1 & E1 & G1).
  unfold at_most in *.
  destruct (m st) as [[a|e|] st1]; cbn [snd] in *;
    [|exists d1; split; [assumption | lia]..].
  destruct (Hk a st1) as (d2 & E2 & G2). exists (d1 ++ d2)%list.
  split; [now rewrite E2, E1, app_assoc | rewrite commits_in_app; lia].
Qed.

Lemma emits_quiet_at_most {A : Type} (m : M World A) :
  emits m quiet -> emits m (at_most 0).
Proof.
  intros H st. destruct (H st) as (d & E & Hq). exists d. split; [exact E|].
  unfold at_most. now rewrite quiet_commits_in.
Qed.

Lemma emits_at_most_le {A : Type} (n n' : nat) (m : M World A) :
  (n <= n')%nat -> emits m (at_most n) -> emits m (at_most n').
Proof.
  intros Hle H st. destruct (H st) as (d & E & Hd). exists d.
  split; [exact E | unfold at_most in *; lia].
Qed.

Lemma emits_one_command (args : list string) (cwd : string) (ignore_errors : bool) :
  emits (_GetCommandStdout args cwd ignore_errors) (at_most 1).
Proof.
  intros st.
  destruct (command_yields args cwd ignore_errors st) as (d & Ht & o & extra & -> & Hq & _).
  eexists. split; [exact Ht|]. unfold at_most. cbn [commits_in].
  rewrite (quiet_commits_in _ Hq). destruct (is_commit _); lia.
Qed.

(** Looking at the index, then committing when it holds staged changes,
    makes at most one commit. *)
Lemma emits_commit_if_modified_once (cwd : string) (args : list string) :
  emits (modified ← _ModifiedFilesInIndex cwd;
         if (modified : bool)
         then _GetCommandStdout args cwd false;; mret tt
         else mret tt) (at_most 1).
Proof.
  apply (emits_at_most_bind 0 1).
  - apply emits_quiet_at_most. unfold _ModifiedFilesInIndex.
    apply emits_bind_closed; [apply quiet_app | |intros; apply emits_quiet_ret].
    now apply emits_quiet_command.
  - intros [|].
    + apply (emits_at_most_bind 1 0); [apply emits_one_command|].
      intros _. apply emits_quiet_at_most, emits_quiet_ret.
    + apply (emits_at_most_le 0 1); [lia|]. apply emits_quiet_at_most, emits_quiet_ret.
Qed.

Lemma exclude_incompatible_count (items : list (string * list string)) :
  emits (exclude_incompatible items) (at_most (List.length items)).
Proof.
  induction items as [|[path exclude_list] items IH]; cbn [exclude_incompatible List.length].
  - apply emits_quiet_at_most, emits_quiet_ret.
  - apply (emits_at_most_bind 0 (S (List.length items)));
      [apply emits_quiet_at_most, emits_quiet_print|]. intros _.
    apply (emits_at_most_bind 0 (S (List.length items)));
      [apply emits_quiet_at_most, emits_quiet_command; reflexivity|]. intros _.
    eapply emits_ext; [intros st; apply bind_assoc_run|].
    apply (emits_at_most_bind 1 (List.length items));
      [apply emits_commit_if_modified_once | intros _; exact IH].
Qed.

Lemma add_makefiles_count (svn_revision : string) (paths : list string) :
  emits (add_makefiles svn_revision paths) (at_most (List.length paths)).
Proof.
  induction paths as [|path paths IH]; cbn [add_makefiles List.length].
  - apply emits_quiet_at_most, emits_quiet_ret.
  - do 4 (apply (emits_at_most_bind 0 (S (List.length paths)));
            [apply emits_quiet_at_most, emits_quiet_command; reflexivity|]; intros _).
    eapply emits_ext; [intros st; apply bind_assoc_run|].
    apply (emits_at_most_bind 1 (List.length paths));
      [apply emits_commit_if_modified_once | intros _; exact IH].
Qed.

Lemma remove_makefiles_quiet (paths : list string) :
  emits (remove_makefiles paths) quiet.
Proof.
  induction paths as [|path paths IH]; cbn [remove_makefiles].
  - apply emits_quiet_ret.
  - apply emits_bind_closed; [apply quiet_app | |intros _; exact IH].
    apply emits_quiet_command. reflexivity.
Qed.

(** X11. The exclusion pass makes at most one commit for each entry of
    [KNOWN_INCOMPATIBLE], the NOTICE step at most one commit, and the
    makefile step at most one commit for each of the 27 directories of
    [ALL_PROJECTS]. *)
Theorem X11_commits_per_step :
  (forall items : list (string * list string),
     emits (exclude_incompatible items) (at_most (List.length items))) /\
  (forall svn_revision : string,
     emits (_GenerateNoticeFile svn_revision) (at_most 1)) /\
  (forall svn_revision : string,
     emits (_GenerateMakefiles svn_revision) (at_most 27)).
Proof.
  split; [exact exclude_incompatible_count|]. split.
  - intros rev. unfold _GenerateNoticeFile.
    apply (emits_at_most_bind 0 1); [apply emits_quiet_at_most, emits_quiet_print|].
    intros _. apply (emits_at_most_bind 0 1).
    { apply emits_quiet_at_most. intros st. exists [].
      rewrite app_nil_r. split; [|constructor].
      destruct (webview_licenses st); [|reflexivity].
      unfold ask. destruct (GenerateNoticeFile (world st)). cbn. apply app_nil_r. }
    intros contents. apply (emits_at_most_bind 0 1).
    { apply emits_quiet_at_most. intros st. unfold ask.
      destruct (write_file _ _ (world st)) as [r w]. cbn [snd trace option_list].
      eexists. split; [reflexivity | repeat constructor]. }
    intros _. apply (emits_at_most_bind 0 1);
      [apply emits_quiet_at_most, emits_quiet_command; reflexivity|].
    intros _. apply emits_commit_if_modified_once.
  - intros rev. unfold _GenerateMakefiles.
    apply (emits_at_most_bind 0 27); [apply emits_quiet_at_most, emits_quiet_print|].
    intros _. apply (emits_at_most_bind 0 27);
      [apply emits_quiet_at_most, remove_makefiles_quiet|].
    intros _. apply (emits_at_most_bind 0 27);
      [apply emits_quiet_at_most, emits_quiet_command; reflexivity|].
    intros _. apply (add_makefiles_count rev ALL_PROJECTS).
Qed.

End CommitCount.

(** ** The module imported after the merge *)

Section LicenseModule.

Context {World : Type} `{RT : Runtime World}.

Lemma keeps_ret {A : Type} (a : A) : keeps_modules (mret a : M World A).
Proof. intros st. reflexivity. Qed.

Lemma keeps_bind {A B : Type} (m : M World A) (k : A -> M World B) :
  keeps_modules m -> (forall a, keeps_modules (k a)) -> keeps_modules (m ≫= k).
Proof.
  intros Hm Hk st. rewrite run_bind. specialize (Hm st).
  destruct (m st) as [[a|e|] st1]; cbn [snd] in *; [|assumption..].
  now rewrite Hk.
Qed.

Lemma keeps_print (line : string) : keeps_modules (print line : M World unit).
Proof. intros st. reflexivity. Qed.

Lemma keeps_command (args : list string) (cwd : string) (ignore_errors : bool) :
  keeps_modules (_GetCommandStdout args cwd ignore_errors).
Proof.
  intros st. rewrite run_command.
  destruct (popen args cwd (world st)) as [[[[rc out] err]|e|] w]; try reflexivity.
  destruct ((rc =? 0) || ignore_errors)%bool; reflexivity.
Qed.

Lemma keeps_exclude_incompatible (items : list (string * list string)) :
  keeps_modules (exclude_incompatible items).
Proof.
  induction items as [|[path exclude_list] items IH]; cbn [exclude_incompatible].
  - apply keeps_ret.
  - apply keeps_bind; [apply keeps_print|]. intros _.
    apply keeps_bind; [apply keeps_command|]. intros _.
    apply keeps_bind.
    { unfold _ModifiedFilesInIndex. apply keeps_bind; [apply keeps_command|].
      intros; apply keeps_ret. }
    intros modified. apply keeps_bind; [|intros _; exact IH].
    destruct modified; [|apply keeps_ret].
    apply keeps_bind; [apply keeps_command | intros; apply keeps_ret].
Qed.

Ltac peel :=
  rewrite run_bind;
  lazymatch goal with
  | |- match ?x with _ => _ end = _ -> _ =>
      destruct x as [[?|?|] ?]; [|discriminate..]
  end.

Lemma merge_and_exclude_binds (fuel : nat) (git_url git_branch svn_revision root_sha1 : string)
    (st st' : state World) :
  merge_and_exclude fuel git_url git_branch svn_revision root_sha1 st = (Ok tt, st') ->
  webview_licenses st' = true.
Proof.
  unfold merge_and_exclude. do 11 peel.
  rewrite run_bind. unfold import_modules at 1.
  destruct (import_license_modules _) as [[known|e|] w]; [|discriminate..].
  intros H.
  match type of H with
  | exclude_incompatible known ?s = _ =>
      pose proof (keeps_exclude_incompatible known s) as Hk
  end.
  rewrite H in Hk. exact Hk.
Qed.

(** X12. The module [webview_licenses], unbound when the script starts,
    is bound whenever [_MergeProjects] returns, so that the NOTICE step
    that [_Snapshot] runs next finds it; called with the module unbound,
    [_GenerateNoticeFile] raises [AttributeError] after its first line of
    output, having written no file and run no command. *)
Theorem X12_license_module_is_bound :
  (forall (fuel : nat) (git_url git_branch svn_revision root_sha1 : string)
          (st st' : state World) (b : bool),
     _MergeProjects fuel git_url git_branch svn_revision root_sha1 st = (Ok b, st') ->
     webview_licenses st' = true) /\
  (forall (svn_revision : string) (st : state World),
     webview_licenses st = false ->
     _GenerateNoticeFile svn_revision st =
       (Raise AttributeError,
        State (world st) (trace st ++ [EStdout "Regenerating NOTICE file ..."]) false)).
Proof.
  split.
  - intros fuel git_url git_branch svn_revision root_sha1 st st' b.
    unfold _MergeProjects. rewrite run_bind.
    destruct (merge_and_exclude _ _ _ _ _ st) as [[[]|e|] st1] eqn:Hm; [|discriminate..].
    apply merge_and_exclude_binds in Hm.
    unfold check_directories_left_over. rewrite run_bind. unfold ask.
    destruct (GetIncompatibleDirectories (world st1)) as [[dirs|e|] w]; [|discriminate..].
    destruct dirs; [|discriminate]. rewrite run_ret. intros H. injection H as _ <-.
    exact Hm.
  - intros rev st Hst. unfold _GenerateNoticeFile. rewrite run_bind. cbn [print emit].
    rewrite run_bind. cbn [webview_licenses]. rewrite Hst. reflexivity.
Qed.

End LicenseModule.

(** ** The entry point *)

Section EntryPoint.

Context {World : Type} `{RT : Runtime World}.

(** X13. [main] fails fast: with a positional argument, or without
    [ANDROID_BUILD_TOP] in the environment, it returns 1 having only
    printed the usage, or else the hint about [envsetup.sh], and leaves
    the world untouched: no command has run.  The usage comes first: the
    environment is not looked at when there is a positional argument. *)
Theorem X13_main_fails_fast
    (fuel : nat) (argv : list string) (environ : gmap string string)
    (opts : options) (args : list string) (st : state World) :
  parse_args default_options argv = Ok (opts, args) ->
  args <> [] \/ environ !! "ANDROID_BUILD_TOP" = None ->
  main fuel argv environ st =
    (Ok 1,
     State (world st)
           (trace st ++
            [match args with
             | [] => EStderr "You need to run the Android envsetup.sh and lunch."
             | _ :: _ => EPrintHelp
             end])
           (webview_licenses st)).
Proof.
  intros Hargs Hwhy. unfold main. rewrite run_bind. unfold lift. rewrite Hargs.
  destruct args as [|a args]; [|reflexivity].
  destruct Hwhy as [Hne | Henv]; [contradiction|].
  rewrite bool_decide_eq_false_2 by (rewrite Henv; intros [? ?]; discriminate).
  reflexivity.
Qed.

End EntryPoint.

Lemma X13_main_fails_fast_witness :
  main 0 ["stray"] ∅ (Scripted.start [] []) =
  (Ok 1, State (Scripted.World [] [] [] [] []) ([] ++ [EPrintHelp]) false).
Proof.
  apply (X13_main_fails_fast 0 ["stray"] ∅ default_options ["stray"]
           (Scripted.start [] [])).
  - reflexivity.
  - left. discriminate.
Defined.

(** ** The pass over the sub-projects *)

Section SubProjects.

Context {World : Type} `{RT : Runtime World}.

Lemma merges_need_new_commits_app (a b : list event) :
  merges_need_new_commits a -> merges_need_new_commits b ->
  merges_need_new_commits (a ++ b).
Proof.
  unfold merges_need_new_commits. intros Ha Hb H.
  apply Forall_app in H as [H1 H2]. apply Forall_app. auto.
Qed.

Lemma calm_merges (d : list event) :
  Forall (fun e => calm e = true) d -> merges_need_new_commits d.
Proof. intros H _. exact H. Qed.

Lemma emits_calm_command (args : list string) (cwd : string) (ignore_errors : bool) :
  (forall o, calm (ECmd args cwd o) = true) ->
  emits (_GetCommandStdout args cwd ignore_errors) merges_need_new_commits.
Proof.
  intros Hargs st. rewrite run_command.
  destruct (popen args cwd (world st)) as [[[[rc out] err]|e|] w].
  - destruct ((rc =? 0) || ignore_errors)%bool; cbn [snd trace].
    + eexists. split; [reflexivity|]. apply calm_merges. repeat constructor. apply Hargs.
    + eexists. split; [rewrite <- !app_assoc; reflexivity|].
      apply calm_merges. repeat constructor. apply Hargs.
  - eexists. split; [reflexivity|]. apply calm_merges. repeat constructor. apply Hargs.
  - eexists. split; [reflexivity|]. apply calm_merges. repeat constructor. apply Hargs.
Qed.

Lemma emits_calm_print (line : string) :
  emits (print line : M World unit) merges_need_new_commits.
Proof.
  intros st. exists [EStdout line]. split; [reflexivity|].
  apply calm_merges. repeat constructor.
Qed.

Lemma emits_calm_ret {A : Type} (a : A) :
  emits (mret a : M World A) merges_need_new_commits.
Proof.
  intros st. exists []. rewrite run_ret, app_nil_r. split; [reflexivity|].
  apply calm_merges. constructor.
Qed.

(** The trace only grows. *)
Lemma emits_bind_grows {A B : Type} (m : M World A) (k : A -> M World B) :
  emits m (fun _ => True) -> (forall a, emits (k a) (fun _ => True)) ->
  emits (m ≫= k) (fun _ => True).
Proof. apply emits_bind_closed. auto. Qed.

Lemma conflict_step_grows (fuel : nat) (commit_message cwd : string) :
  emits (_CheckNoConflictsAndCommitMerge fuel commit_message cwd) (fun _ => True).
Proof.
  assert (Hcmd : forall args ign, emits (_GetCommandStdout args cwd ign) (fun _ => True)).
  { intros args ign st. destruct (command_trace args cwd ign st) as (d & Ht & _). eauto. }
  assert (Hret : forall (A : Type) (a : A), emits (mret a : M World A) (fun _ => True)).
  { intros A a st. exists []. now rewrite run_ret, app_nil_r. }
  unfold _CheckNoConflictsAndCommitMerge.
  apply emits_bind_grows; [apply Hcmd|]. intros status.
  apply emits_bind_grows.
  { destruct (findall_deleted_by_us status); [apply Hret|].
    apply emits_bind_grows; [intros st; eexists; split; [reflexivity | exact I]|].
    intros _. apply emits_bind_grows; [apply Hcmd | intros; apply Hret]. }
  intros _. apply emits_bind_grows.
  { intros st. destruct (resolve_conflicts_yields fuel cwd commit_message st)
      as (d & Ht & _). eauto. }
  intros m. apply emits_bind_grows; [apply Hcmd | intros; apply Hret].
Qed.

(** The check for new history and what hangs on it. *)
Lemma merge_if_new_commits (fuel : nat) (path url sha1 dest_dir : string) :
  emits (new_commits ← _GetCommandStdout ["git"; "rev-list"; "-1"; "HEAD.." ++ sha1]
                                         dest_dir false;
         if truthy (PStr new_commits)
         then
           print ("Merging project " ++ path ++ " at " ++ sha1 ++ " ...");;
           _GetCommandStdout ["git"; "merge"; "--no-commit"; sha1] dest_dir true;;
           _CheckNoConflictsAndCommitMerge fuel
             ("Merge " ++ path ++ " from " ++ url ++ " at " ++ sha1 ++ nl ++ nl ++
              AUTOGEN_MESSAGE) dest_dir
         else
           print ("No new commits to merge in project " ++ path))
        merges_need_new_commits.
Proof.
  assert (Hrest : emits
            (print ("Merging project " ++ path ++ " at " ++ sha1 ++ " ...");;
             _GetCommandStdout ["git"; "merge"; "--no-commit"; sha1] dest_dir true;;
             _CheckNoConflictsAndCommitMerge fuel
               ("Merge " ++ path ++ " from " ++ url ++ " at " ++ sha1 ++ nl ++ nl ++
                AUTOGEN_MESSAGE) dest_dir) (fun _ => True)).
  { apply emits_bind_grows; [intros s; eexists; split; [reflexivity | exact I]|].
    intros _. apply emits_bind_grows; [|intros _; apply conflict_step_grows].
    intros s. destruct (command_trace ["git"; "merge"; "--no-commit"; sha1]
                          dest_dir true s) as (d & Ht & _). eauto. }
  intros st. rewrite run_bind, run_command.
  destruct (popen _ dest_dir (world st)) as [[[[rc out] err]|e|] w].
  - destruct (Z.eqb_spec rc 0) as [->|Hrc]; cbn [orb].
    + destruct (truthy (PStr out)) eqn:Hnew.
      * match goal with
        | |- context [(print ?l ≫= ?k) ?s] => destruct (Hrest s) as (d2 & Ht2 & _)
        end.
        cbn [trace] in Ht2. eexists.
        split; [rewrite Ht2, <- app_assoc; reflexivity|].
        intros H. cbn [app] in H. apply Forall_cons in H as [H _].
        cbn [new_commits_report] in H. congruence.
      * cbn [print emit snd trace]. eexists.
        split; [rewrite <- app_assoc; reflexivity|].
        apply calm_merges. repeat constructor.
    + cbn [snd trace]. eexists. split; [rewrite <- !app_assoc; reflexivity|].
      apply calm_merges. repeat constructor.
  - eexists. split; [reflexivity|]. apply calm_merges. repeat constructor.
  - eexists. split; [reflexivity|]. apply calm_merges. repeat constructor.
Qed.

(** X14. A sub-project is merged only when [git rev-list] finds history
    to merge: if no [git rev-list] of the pass over the sub-projects
    reports new commits, the pass runs no [git merge], makes no commit and
    does not prompt the operator. *)
Theorem X14_no_merge_without_new_commits
    (fuel : nat) (merge_info : gmap string project_info) (paths : list string) :
  emits (merge_third_party fuel merge_info paths)
    (fun d =>
       Forall (fun e => new_commits_report e = false) d ->
       Forall (fun e => is_merge e = false /\ is_commit e = false /\ is_prompt e = false) d).
Proof.
  assert (H : emits (merge_third_party fuel merge_info paths) merges_need_new_commits).
  { induction paths as [|path paths IH]; cbn [merge_third_party].
    - apply emits_calm_ret.
    - apply emits_bind_closed; [apply merges_need_new_commits_app | |].
      { intros st. unfold lift. exists []. rewrite app_nil_r. split; [reflexivity|].
        apply calm_merges. constructor. }
      intros info.
      apply emits_bind_closed; [apply merges_need_new_commits_app | |].
      { apply emits_calm_command. reflexivity. }
      intros _.
      apply emits_bind_closed;
        [apply merges_need_new_commits_app | apply emits_calm_print|].
      intros _.
      apply emits_bind_closed; [apply merges_need_new_commits_app | |].
      { apply emits_calm_command. reflexivity. }
      intros _.
      eapply emits_ext; [intros st; apply bind_assoc_run|].
      apply emits_bind_closed;
        [apply merges_need_new_commits_app | apply merge_if_new_commits
        | intros _; exact IH]. }
  intros st. destruct (H st) as (d & Ht & Hd). exists d. split; [exact Ht|].
  intros Hno. specialize (Hd Hno). eapply Forall_impl; [exact Hd|].
  intros e He. unfold calm in He. cbn beta in He.
  apply andb_true_iff in He as [He Hp]. apply andb_true_iff in He as [Hm Hc].
  now rewrite negb_true_iff in Hm, Hc, Hp.
Qed.

End SubProjects.

(** ** Where an entry is split *)

(** C3, amended. An entry of the form [u@r], in which [u] holds neither
    [@] nor line feed, so that this [@] is the first of the entry and lies
    on its first line, is split at that [@]: the url is [u] and the
    revision is [r] up to its first line feed.  An entry whose first line
    holds no [@] is not split: the resolver raises [AttributeError].  For
    [https://example/repo@deadbeef] the split gives the url
    [https://example/repo] and the revision [deadbeef]. *)
Theorem C3_split_on_first_at (u r : string) :
  contains_char at_sign u = false ->
  contains_char LF u = false ->
  split_entry (PStr (u ++ "@" ++ r)) = Ok (ProjectInfo u (until_lf r)) /\
  (forall s : string,
     contains_char at_sign (until_lf s) = false ->
     split_entry (PStr s) = Raise AttributeError) /\
  split_entry (PStr "https://example/repo@deadbeef") =
    Ok (ProjectInfo "https://example/repo" "deadbeef").
Proof.
  intros Hat Hlf. split; [now apply split_entry_first_at|]. split; [|reflexivity].
  intros s Hs. unfold split_entry, re_match_url_sha1.
  apply partition_at_none in Hs. now rewrite Hs.
Qed.

Lemma C3_split_on_first_at_witness :
  split_entry (PStr ("https://user" ++ "@" ++ "host/repo@deadbeef")) =
    Ok (ProjectInfo "https://user" (until_lf "host/repo@deadbeef")) /\
  split_entry (PStr ("https://example/repo" ++ nl ++ "@deadbeef")) = Raise AttributeError.
Proof.
  destruct (C3_split_on_first_at "https://user" "host/repo@deadbeef" eq_refl eq_refl)
    as (Hsplit & Hfail & _).
  split; [exact Hsplit | apply Hfail; reflexivity].
Defined.

(** ** The conflict step on a file deleted by us *)

Section DeletedByUs.

Context {World : Type} `{RT : Runtime World}.




End DeletedByUs.



(** ** What the conflict step passes to git rm *)

Section Only.

Context {World : Type} `{RT : Runtime World}.

Variable p : event -> bool.
Hypothesis p_stdout : forall line, p (EStdout line) = true.
Hypothesis p_stderr : forall line, p (EStderr line) = true.
Hypothesis p_prompt : forall prompt answer, p (EPrompt prompt answer) = true.

Lemma only_ret {A : Type} (a : A) :
  emits (mret a : M World A) (Forall (fun e => p e = true)).
Proof. intros st. exists []. rewrite run_ret, app_nil_r. split; [reflexivity | constructor]. Qed.

Lemma only_command (args : list string) (cwd : string) (ignore_errors : bool) :
  (forall o, p (ECmd args cwd o) = true) ->
  emits (_GetCommandStdout args cwd ignore_errors) (Forall (fun e => p e = true)).
Proof.
  intros Hargs st. rewrite run_command.
  destruct (popen args cwd (world st)) as [[[[rc out] err]|e|] w].
  - destruct ((rc =? 0) || ignore_errors)%bool; cbn [snd trace].
    + eexists. split; [reflexivity|]. repeat constructor. apply Hargs.
    + eexists. split; [rewrite <- !app_assoc; reflexivity|].
      repeat constructor; [apply Hargs | apply p_stderr | apply p_stderr].
  - eexists. split; [reflexivity|]. repeat constructor. apply Hargs.
  - eexists. split; [reflexivity|]. repeat constructor. apply Hargs.
Qed.

Lemma only_resolve_conflicts (fuel : nat) (cwd : string) :
  (forall o, p (ECmd ["git"; "status"; "--porcelain"] cwd o) = true) ->
  forall commit_message : string,
  emits (resolve_conflicts fuel commit_message cwd) (Forall (fun e => p e = true)).
Proof.
  intros Hstatus. induction fuel as [|fuel IH]; intros commit_message.
  - intros st. exists []. cbn [resolve_conflicts out_of_fuel snd]. rewrite app_nil_r.
    split; [reflexivity | constructor].
  - cbn [resolve_conflicts].
    apply emits_bind_closed; [intros; now apply Forall_app | now apply only_command|].
    intros status. destruct (findall_conflicts status) as [|c cs]; [apply only_ret|].
    apply emits_bind_closed; [intros; now apply Forall_app | | intros; apply IH].
    intros st. unfold ask. destruct (raw_input _ (world st)) as [r w].
    cbn [snd trace option_list]. eexists. split; [reflexivity|].
    repeat constructor. apply p_prompt.
Qed.

End Only.

Section RemovedFiles.

Context {World : Type} `{RT : Runtime World}.

(** X3. What the conflict step passes to [git rm]. Once its first status
    command has succeeded, the step runs [git rm] at most once: not at
    all when the report has no [DD] or [DU] conflict entry, and otherwise
    right after announcing it, in the step's directory, with [-rf
    --ignore-unmatch] and the files read off the report's [DD] and [DU]
    lines, which are exactly the files [f] for which [DD f] or [DU f] is
    among the report's conflict entries. *)
Theorem X3_git_rm_arguments (fuel : nat) (commit_message cwd : string) :
  yields (_CheckNoConflictsAndCommitMerge fuel commit_message cwd)
    (fun _ d =>
       forall (status err : string) (rest : list event),
         d = ECmd ["git"; "status"; "--porcelain"] cwd (Ok (0, status, err)) :: rest ->
         (forall f : string,
            f ∈ findall_deleted_by_us status <->
            ("DD " ++ f) ∈ findall_conflicts status \/
            ("DU " ++ f) ∈ findall_conflicts status) /\
         match findall_deleted_by_us status with
         | [] => Forall (fun e => is_rm e = false) rest
         | files =>
             exists o tail,
               rest =
                 EStdout ("Keeping ours for the following locally deleted files." ++ nl ++
                          "  " ++ join (nl ++ "  ") files) ::
                 ECmd (["git"; "rm"; "-rf"; "--ignore-unmatch"] ++ files) cwd o :: tail /\
               Forall (fun e => is_rm e = false) tail
         end).
Proof.
  assert (Hk : emits (commit_message' ← resolve_conflicts fuel commit_message cwd;
                      _GetCommandStdout ["git"; "commit"; "-m"; commit_message'] cwd false;;
                      mret tt)
                 (Forall (fun e => negb (is_rm e) = true))).
  { apply emits_bind_closed; [intros; now apply Forall_app | |].
    - apply only_resolve_conflicts; reflexivity.
    - intros m. apply emits_bind_closed; [intros; now apply Forall_app | |].
      + apply only_command; reflexivity.
      + intros _. apply only_ret. }
  assert (Hneg : forall l, Forall (fun e => negb (is_rm e) = true) l ->
                           Forall (fun e => is_rm e = false) l).
  { intros l H. eapply Forall_impl; [exact H|]. intros e. apply negb_true_iff. }
  intros st. unfold _CheckNoConflictsAndCommitMerge. rewrite run_bind, run_command.
  destruct (popen ["git"; "status"; "--porcelain"] cwd (world st))
    as [[[[rc out] err]|e|] w1].
  - destruct (Z.eqb_spec rc 0) as [->|Hrc]; cbn [orb].
    + rewrite run_bind.
      destruct (findall_deleted_by_us out) as [|f fs] eqn:Hfiles.
      * rewrite run_ret.
        match goal with
        | |- context [(resolve_conflicts fuel commit_message cwd ≫= ?k) ?s] =>
            destruct (Hk s) as (d & Ht & Hd)
        end.
        cbn [trace] in Ht. eexists. split; [rewrite Ht, <- app_assoc; reflexivity|].
        cbn [app]. intros status err' rest H. injection H as <- _ <-.
        split; [intros; apply deleted_by_us_iff_conflict_entries|].
        rewrite Hfiles. now apply Hneg.
      * rewrite !run_bind. cbn [print emit]. rewrite run_bind, run_command.
        cbn [world trace webview_licenses].
        destruct (popen (["git"; "rm"; "-rf"; "--ignore-unmatch"] ++ f :: fs) cwd w1)
          as [[[[rc2 out2] err2]|e2|] w2].
        -- destruct (Z.eqb_spec rc2 0) as [->|Hrc2]; cbn [orb].
           ++ rewrite run_ret.
              match goal with
              | |- context [(resolve_conflicts fuel commit_message cwd ≫= ?k) ?s] =>
                  destruct (Hk s) as (d & Ht & Hd)
              end.
              cbn [trace] in Ht. eexists.
              split; [rewrite Ht, <- !app_assoc; reflexivity|].
              cbn [app]. intros status err' rest H. injection H as <- _ <-.
              split; [intros; apply deleted_by_us_iff_conflict_entries|].
              rewrite Hfiles. eexists _, d. split; [reflexivity | now apply Hneg].
           ++ cbn [snd trace]. eexists. split; [rewrite <- !app_assoc; reflexivity|].
              cbn [app]. intros status err' rest H. injection H as <- _ <-.
              split; [intros; apply deleted_by_us_iff_conflict_entries|].
              rewrite Hfiles. eexists _, _. split; [reflexivity | repeat constructor].
        -- cbn [snd trace]. eexists. split; [rewrite <- !app_assoc; reflexivity|].
           cbn [app]. intros status err' rest H. injection H as <- _ <-.
           split; [intros; apply deleted_by_us_iff_conflict_entries|].
           rewrite Hfiles. eexists _, _. split; [reflexivity | constructor].
        -- cbn [snd trace]. eexists. split; [rewrite <- !app_assoc; reflexivity|].
           cbn [app]. intros status err' rest H. injection H as <- _ <-.
           split; [intros; apply deleted_by_us_iff_conflict_entries|].
           rewrite Hfiles. eexists _, _. split; [reflexivity | constructor].
    + cbn [snd trace]. eexists. split; [rewrite <- !app_assoc; reflexivity|].
      cbn [app]. intros status err' rest H. injection H as -> _ _ _. contradiction.
  - cbn [snd trace]. eexists. split; [reflexivity|]. intros status err' rest H.
    discriminate H.
  - cbn [snd trace]. eexists. split; [reflexivity|]. intros status err' rest H.
    discriminate H.
Qed.

End RemovedFiles.
